(** * The NATSS dispatcher: subscriptions supervisor

    A shallow embedding of the Go package [dispatcher] (the type
    [subscriptionsSupervisor] and its methods): the host-to-channel router,
    the subscription registry with its reconciler [UpdateSubscriptions], the
    HTTP receive path [messageReceiverFunc] and the per-subscription message
    callback [mcb].

    Go maps are finite maps ([gmap]); a Go [(value, error)] pair is a
    [result]; the NATS streaming server, the CloudEvents binding and the HTTP
    dispatcher are an interface ([External]) over an abstract world, and every
    call made through that interface is an event of the run, so that "calls
    exactly once" and "performs no backend operation" are statements about the
    events of a run. *)

From stdpp Require Import gmap strings list fin_maps.

Set Default Proof Using "Type".

(** ** Errors

    A Go [error] as built by [errors.New], [fmt.Errorf] (both carry only a
    message) and [errors.Wrap] of [github.com/pkg/errors]. *)

Inductive error : Type :=
| errors_New (msg : string)
| errors_Wrap (cause : error) (msg : string).

(** [err.Error()]: [errors.Wrap(err, msg)] prints as [msg + ": " + err.Error()]. *)
Fixpoint Error (e : error) : string :=
  match e with
  | errors_New msg => msg
  | errors_Wrap cause msg => msg +:+ ": " +:+ Error cause
  end.

(** [errors.Cause]: the innermost error of a chain of wraps. *)
Fixpoint Cause (e : error) : error :=
  match e with
  | errors_New _ => e
  | errors_Wrap cause _ => Cause cause
  end.

(** [stan.ErrConnectionClosed] of [github.com/nats-io/stan.go]. *)
Definition ErrConnectionClosed : error := errors_New "stan: connection closed".

(** A Go [(value, error)] return where the value is meaningful only when the
    error is nil. *)
Inductive result (A : Type) : Type :=
| Ok (a : A)
| Err (e : error).
Arguments Ok {A} a.
Arguments Err {A} e.

(** ** Channels *)

(** [eventingchannels.ChannelReference]. *)
Record ChannelReference : Type := mkChannelReference {
  Namespace : string;
  Name : string
}.

#[global] Instance ChannelReference_eq_dec : EqDecision ChannelReference.
Proof. solve_decision. Defined.

#[global] Instance ChannelReference_countable : Countable ChannelReference.
Proof.
  refine (inj_countable' (λ r, (Namespace r, Name r))
                         (λ p, mkChannelReference p.1 p.2) _).
  by intros [].
Defined.

(** Modelled from the spec: the type [messagingv1.Channel] is declared outside
    the dispatcher package.  The router reads three things of a channel:
    [c.Namespace], [c.Name] (promoted from its object metadata) and
    [c.Status.Address.URL.Host]; the spec's channel is
    [{ns, name, host}].  A channel here is an addressable one: its status
    carries an address URL. *)
Record Channel : Type := mkChannel {
  Channel_Namespace : string;
  Channel_Name : string;
  Status_Address_URL_Host : string
}.

Definition getSubject (channel : ChannelReference) : string :=
  Name channel +:+ "." +:+ Namespace channel.

(** ** Host to channel router *)

(** The [fmt.Errorf] of [newHostNameToChannelRefMap]; every verb is [%s]. *)
Definition duplicateHostNameError (host cNamespace cName crNamespace crName : string) : error :=
  errors_New ("duplicate hostName found. Each channel must have a unique host header. HostName:"
              +:+ host +:+ ", channel:" +:+ cNamespace +:+ "." +:+ cName
              +:+ ", channel:" +:+ crNamespace +:+ "." +:+ crName).

(** The body of [for _, c := range cList] with the map built so far. *)
Fixpoint newHostNameToChannelRefMap_from (hostToChanMap : gmap string ChannelReference)
    (cList : list Channel) : result (gmap string ChannelReference) :=
  match cList with
  | [] => Ok hostToChanMap
  | c :: cList' =>
      let host := Status_Address_URL_Host c in
      match hostToChanMap !! host with
      | Some cr =>
          Err (duplicateHostNameError host (Channel_Namespace c) (Channel_Name c)
                                      (Namespace cr) (Name cr))
      | None =>
          newHostNameToChannelRefMap_from
            (<[host := {| Name := Channel_Name c; Namespace := Channel_Namespace c |}]> hostToChanMap)
            cList'
      end
  end.

Definition newHostNameToChannelRefMap (cList : list Channel) : result (gmap string ChannelReference) :=
  newHostNameToChannelRefMap_from ∅ cList.

(** ** Subscribers *)

(** [types.UID] and the string form of an [apis.URL]. *)
Abbreviation types_UID := string (only parsing).
Abbreviation URL := string (only parsing).

(** [IsEmpty] of a pointer to an [apis.URL]: a nil pointer or the zero URL. *)
Definition URL_IsEmpty (u : option URL) : bool :=
  match u with
  | None => true
  | Some s => bool_decide (s = EmptyString)
  end.

(** [duckv1.Destination] and [eventingduckv1.DeliverySpec], with the fields the
    callback reads. *)
Record Destination : Type := mkDestination { URI : option URL }.
Record DeliverySpec : Type := mkDeliverySpec { DeadLetterSink : option Destination }.

(** [eventingduckv1.SubscriberSpec]; the pointers are options. *)
Record SubscriberSpec : Type := mkSubscriberSpec {
  UID : types_UID;
  Generation : Z;
  SubscriberURI : option URL;
  ReplyURI : option URL;
  Delivery : option DeliverySpec
}.

#[global] Instance Destination_eq_dec : EqDecision Destination.
Proof. solve_decision. Defined.
#[global] Instance DeliverySpec_eq_dec : EqDecision DeliverySpec.
Proof. solve_decision. Defined.
#[global] Instance SubscriberSpec_eq_dec : EqDecision SubscriberSpec.
Proof. solve_decision. Defined.

#[global] Instance SubscriberSpec_countable : Countable SubscriberSpec.
Proof.
  refine (inj_countable'
    (λ s, (UID s, Generation s, SubscriberURI s, ReplyURI s,
           (λ d, URI <$> DeadLetterSink d) <$> Delivery s))
    (λ t, let '(u, g, su, ru, d) := t in
          mkSubscriberSpec u g su ru
            ((λ dl, mkDeliverySpec (mkDestination <$> dl)) <$> d)) _).
  intros [u g su ru [[[[dl]|]]|]]; reflexivity.
Defined.

(** Modelled from the spec: [subscriptionReference] and
    [newSubscriptionReference] live in a file of the package that is not part
    of the sources at hand.  The reference is derived from the subscriber and
    carries its uid, subscriber URI, reply URI and delivery; line 265 converts
    a reference back with [eventingduckv1.SubscriberSpec(sub)], so both types
    have the same fields. *)
Abbreviation subscriptionReference := SubscriberSpec (only parsing).
Definition newSubscriptionReference (spec : SubscriberSpec) : subscriptionReference := spec.

(** ** The supervisor *)

(** [maxElements]: the capacity of the [connect] channel. *)
Definition maxElements : nat := 10.

(** A connection ([stan.Conn]) and a backend subscription ([stan.Subscription])
    are identified by a number. *)
Abbreviation Conn := nat (only parsing).
Abbreviation Handle := nat (only parsing).

(** [SubscriptionChannelMapping]. *)
Abbreviation SubscriptionChannelMapping := (gmap ChannelReference (gmap string nat)) (only parsing).

(** [subscriptionsSupervisor].  [connect] is the number of reconnect requests
    buffered in the channel of capacity [maxElements]; a nil [natssConn] is
    [None].  The logger, the receiver, the dispatcher and the two mutexes are
    not state of the model: calls run one at a time, and the collaborators sit
    behind [External]. *)
Record subscriptionsSupervisor : Type := mkSupervisor {
  subscriptions : SubscriptionChannelMapping;
  connect : nat;
  ackWaitMinutes : Z;
  maxInflight : Z;
  natssConn : option Conn;
  natssConnInProgress : bool;
  hostToChannelMap : gmap string ChannelReference
}.

Definition set_subscriptions (f : SubscriptionChannelMapping → SubscriptionChannelMapping)
    (s : subscriptionsSupervisor) : subscriptionsSupervisor :=
  mkSupervisor (f (subscriptions s)) (connect s) (ackWaitMinutes s) (maxInflight s)
               (natssConn s) (natssConnInProgress s) (hostToChannelMap s).

Definition set_connect (n : nat) (s : subscriptionsSupervisor) : subscriptionsSupervisor :=
  mkSupervisor (subscriptions s) n (ackWaitMinutes s) (maxInflight s)
               (natssConn s) (natssConnInProgress s) (hostToChannelMap s).

Definition set_natssConn (c : option Conn) (inProgress : bool)
    (s : subscriptionsSupervisor) : subscriptionsSupervisor :=
  mkSupervisor (subscriptions s) (connect s) (ackWaitMinutes s) (maxInflight s)
               c inProgress (hostToChannelMap s).

(** [setHostToChannelMap]: the atomic store. *)
Definition setHostToChannelMap (hcMap : gmap string ChannelReference)
    (s : subscriptionsSupervisor) : subscriptionsSupervisor :=
  mkSupervisor (subscriptions s) (connect s) (ackWaitMinutes s) (maxInflight s)
               (natssConn s) (natssConnInProgress s) hcMap.

(** [getHostToChannelMap]: the atomic load. *)
Definition getHostToChannelMap (s : subscriptionsSupervisor) : gmap string ChannelReference :=
  hostToChannelMap s.

(** The state [NewNatssDispatcher] builds: no subscription, no buffered
    reconnect request, no connection, the empty host map. *)
Definition NewNatssDispatcher (ackWait maxInfl : Z) : subscriptionsSupervisor :=
  setHostToChannelMap ∅ (mkSupervisor ∅ 0 ackWait maxInfl None false ∅).

(** [strconv.Quote] as [%q] prints a host name that needs no escaping. *)
Definition quoted (s : string) : string :=
  String (Ascii.ascii_of_nat 34) (s +:+ String (Ascii.ascii_of_nat 34) EmptyString).

(** [getChannelReferenceFromHost]: on a miss the zero [ChannelReference] comes
    with the error. *)
Definition getChannelReferenceFromHost (s : subscriptionsSupervisor) (host : string)
    : ChannelReference * option error :=
  let chMap := getHostToChannelMap s in
  match chMap !! host with
  | Some cr => (cr, None)
  | None =>
      (mkChannelReference EmptyString EmptyString,
       Some (errors_New ("Invalid HostName:" +:+ quoted host
               +:+ ". HostName not found in any of the watched natss channels")))
  end.

(** [ProcessChannels] on the supervisor; its log lines are at info and debug
    level. *)
Definition ProcessChannels (chanList : list Channel) (s : subscriptionsSupervisor)
    : option error * subscriptionsSupervisor :=
  match newHostNameToChannelRefMap chanList with
  | Err err => (Some err, s)
  | Ok hostToChanMap => (None, setHostToChannelMap hostToChanMap s)
  end.

(** ** The collaborators *)

(** A message of the backend ([stan.Msg]) and a CloudEvents message
    ([binding.Message]) are their payloads. *)
Record stan_Msg : Type := mkMsg {
  Msg_Sequence : N;
  Msg_Subject : string;
  Msg_Data : string
}.
Abbreviation Message := string (only parsing).

(** The message [natsscloudevents.NewMessage] builds over a message of the
    backend: it carries the backend message with the decoded event, and in
    manual-ack mode whoever holds it acknowledges the backend message by
    finishing it. *)
Record stan_Message : Type := mkMessage {
  Message_Msg : stan_Msg;
  Message_manualAcks : bool;
  Message_event : Message
}.

(** The options [subscribe] passes to the backend: [stan.DurableName],
    [stan.AckWait] in minutes and [stan.MaxInflight]; manual acknowledgement
    is always set. *)
Record SubscribeOpts : Type := mkOpts {
  DurableName : string;
  AckWait : Z;
  MaxInflight : Z
}.

(** How a call into a collaborator ends when the callback, which recovers
    from panics, makes it: with a value, with an error, or in a panic. *)
Inductive outcome (A : Type) : Type :=
| Returned (a : A)
| Failed (e : error)
| Panicked (v : string).
Arguments Returned {A} a.
Arguments Failed {A} e.
Arguments Panicked {A} v.

(** The call came back with a value: no error, no panic. *)
Definition returned {A} (o : outcome A) : bool :=
  match o with
  | Returned _ => true
  | _ => false
  end.

(** The interfaces the supervisor calls, over the state [W] of everything
    outside it: the streaming server ([Subscribe], [Unsubscribe], [Ack]), the
    CloudEvents binding ([NewSenderFromConn], [Send], [NewMessage]) and the
    HTTP dispatcher ([DispatchMessage]).  Every answer may depend on the whole
    history.  [DispatchMessage] is handed the message that carries the backend
    message; next to the outcome of the delivery it answers with what each
    [Ack] of the backend message it made through that message returned.
    [range_keys] is the order in which a [for k := range m] visits
    the keys of [m], which Go leaves open.  [subscriptionReference_String] is
    the [String] method of a subscription reference, declared in a file that
    is not at hand; the spec fixes no more of it than that it is a function of
    the reference. *)
Class External (W : Type) : Type := {
  Subscribe : Conn → string → SubscribeOpts → W → result Handle * W;
  Unsubscribe : Handle → W → option error * W;
  NewSenderFromConn : Conn → string → W → option error * W;
  Send : Conn → string → Message → W → option error * W;
  NewMessage : stan_Msg → W → outcome Message * W;
  DispatchMessage : stan_Message → option URL → option URL → option URL → W
                    → (outcome unit * list (outcome unit)) * W;
  Ack : stan_Msg → W → outcome unit * W;
  range_keys : gmap string Handle → list string;
  range_keys_perm : ∀ m, range_keys m ≡ₚ (map_to_list m).*1;
  subscriptionReference_String : subscriptionReference → string
}.

(** ** Events *)

(** The two log levels whose lines the model keeps; lines at info and debug
    level are dropped. *)
Inductive Level : Type := ErrorLevel | WarnLevel.

(** One entry per call that leaves the supervisor, with its arguments and its
    answer, per [signalReconnect] and per log line. *)
Inductive Event : Type :=
| EvSubscribe (conn : Conn) (subject : string) (opts : SubscribeOpts) (r : result Handle)
| EvUnsubscribe (h : Handle) (r : option error)
| EvNewSender (conn : Conn) (subject : string) (r : option error)
| EvSend (conn : Conn) (subject : string) (m : Message) (r : option error)
| EvNewMessage (stanMsg : stan_Msg) (r : outcome Message)
| EvDispatch (m : Message) (destination reply deadLetter : option URL) (r : outcome unit)
| EvAck (stanMsg : stan_Msg) (r : outcome unit)
| EvSignalReconnect
| EvLog (lvl : Level) (msg : string) (err : option error).

(** ** The monad of the supervisor's methods

    A method runs on the world and the supervisor and yields its result, the
    two states it leaves, and the events it produced in order. *)

Record State (W : Type) : Type := mkState {
  world : W;
  sup : subscriptionsSupervisor
}.
Arguments mkState {W} world sup.
Arguments world {W} s.
Arguments sup {W} s.

Definition M (W A : Type) : Type := State W → A * State W * list Event.

Definition ret {W A} (a : A) : M W A := λ st, (a, st, []).

Definition bind {W A B} (m : M W A) (k : A → M W B) : M W B :=
  λ st, let '(a, st1, t1) := m st in
        let '(b, st2, t2) := k a st1 in
        (b, st2, t1 ++ t2).

Notation "'let*' x ':=' m 'in' k" := (bind m (λ x, k))
  (at level 10, x pattern, m at level 100, k at level 200).

(** The three components of a run. *)
Definition value {W A} (r : A * State W * list Event) : A := r.1.1.
Definition after {W A} (r : A * State W * list Event) : State W := r.1.2.
Definition events {W A} (r : A * State W * list Event) : list Event := r.2.

Definition get_sup {W} : M W subscriptionsSupervisor := λ st, (sup st, st, []).

Definition modify_sup {W} (f : subscriptionsSupervisor → subscriptionsSupervisor) : M W unit :=
  λ st, (tt, mkState (world st) (f (sup st)), []).

Definition emit {W} (ev : Event) : M W unit := λ st, (tt, st, [ev]).

(** A call into a collaborator: run it on the world, record it with its
    answer. *)
Definition call {W A} (f : W → A * W) (ev : A → Event) : M W A :=
  λ st, let '(a, w) := f (world st) in
        (a, mkState w (sup st), [ev a]).

(** [s.logger.Error] and [s.logger.Warn]. *)
Definition logger_Error {W} (msg : string) (err : option error) : M W unit :=
  emit (EvLog ErrorLevel msg err).
Definition logger_Warn {W} (msg : string) (err : option error) : M W unit :=
  emit (EvLog WarnLevel msg err).

(** [for _, x := range xs { body x }] over a list already in visiting order. *)
Fixpoint for_range {W A} (xs : list A) (body : A → M W unit) : M W unit :=
  match xs with
  | [] => ret tt
  | x :: xs' => let* _ := body x in for_range xs' body
  end.

(** ** The methods *)

Section Methods.
Context {W : Type} `{!External W}.

(** [signalReconnect]: a send on the buffered channel that never blocks;
    when the buffer is full the request is dropped. *)
Definition signalReconnect : M W unit :=
  let* _ := emit EvSignalReconnect in
  modify_sup (λ s, if decide (connect s < maxElements)
                   then set_connect (S (connect s)) s else s).

(** The function [messageReceiverFunc] returns: the HTTP receive path of one
    message for [channel]. *)
Definition messageReceiverFunc (channel : ChannelReference) (message : Message)
    : M W (option error) :=
  let* s := get_sup in
  match natssConn s with
  | None =>
      let* _ := logger_Error "no Connection to NATSS" None in
      ret (Some (errors_New "no Connection to NATSS"))
  | Some currentNatssConn =>
      let* r := call (NewSenderFromConn currentNatssConn (getSubject channel))
                     (EvNewSender currentNatssConn (getSubject channel)) in
      match r with
      | Some err =>
          let* _ := logger_Error "could not create natss sender" (Some err) in
          ret (Some (errors_Wrap err "could not create natss sender"))
      | None =>
          let* r := call (Send currentNatssConn (getSubject channel) message)
                         (EvSend currentNatssConn (getSubject channel) message) in
          match r with
          | Some err =>
              let errMsg := "error during send" in
              if decide (Error err = Error ErrConnectionClosed) then
                let errMsg := errMsg +:+ " - connection to NATSS has been lost, attempting to reconnect" in
                let* _ := signalReconnect in
                let* _ := logger_Error errMsg (Some err) in
                ret (Some (errors_Wrap err errMsg))
              else
                let* _ := logger_Error errMsg (Some err) in
                ret (Some (errors_Wrap err errMsg))
          | None => ret None
          end
      end
  end.

(** [subscribe], from [ch := getSubject(channel)] on; the callback [mcb] it
    hands to the backend is defined below. *)
Definition subscribe (channel : ChannelReference) (subscription : subscriptionReference)
    : M W (result Handle) :=
  let ch := getSubject channel in
  let sub := subscriptionReference_String subscription in
  let* s := get_sup in
  match natssConn s with
  | None => ret (Err (errors_New "no Connection to NATSS"))
  | Some currentNatssConn =>
      let opts := mkOpts sub (ackWaitMinutes s) (maxInflight s) in
      let* r := call (Subscribe currentNatssConn ch opts)
                     (EvSubscribe currentNatssConn ch opts) in
      match r with
      | Err err =>
          let* _ := logger_Error " Create new NATSS Subscription failed: " (Some err) in
          if decide (Error err = Error ErrConnectionClosed) then
            let* _ := logger_Error "Connection to NATSS has been lost, attempting to reconnect." None in
            let* _ := signalReconnect in
            ret (Err err)
          else ret (Err err)
      | Ok natssSub => ret (Ok natssSub)
      end
  end.

(** [stanSub, ok := s.subscriptions[channel][subscription]]: a missing
    channel reads as a nil map, which has no entry. *)
Definition handle_at (channel : ChannelReference) (subscription : types_UID)
    (s : subscriptionsSupervisor) : option Handle :=
  subscriptions s !! channel ≫= (λ chMap, chMap !! subscription).

(** [unsubscribe]; [delete] works in place on the inner map. *)
Definition unsubscribe (channel : ChannelReference) (subscription : types_UID)
    : M W (option error) :=
  let* s := get_sup in
  match handle_at channel subscription s with
  | Some stanSub =>
      let* r := call (Unsubscribe stanSub) (EvUnsubscribe stanSub) in
      match r with
      | Some err =>
          let* _ := logger_Error "Unsubscribing NATSS Streaming subscription failed: " (Some err) in
          ret (Some err)
      | None =>
          let* _ := modify_sup (set_subscriptions (alter (delete subscription) channel)) in
          ret None
      end
  | None => ret None
  end.

(** [s.logger.Error("unsubscribe", zap.Error(s.unsubscribe(cRef, sub)))]. *)
Definition unsubscribe_logged (cRef : ChannelReference) (sub : types_UID) : M W unit :=
  let* err := unsubscribe cRef sub in
  logger_Error "unsubscribe" err.

(** The map object [chMap] of [UpdateSubscriptions] is the one stored at
    [s.subscriptions[cRef]]: reads of [chMap] read the registry at [cRef] and
    writes to [chMap] are writes in place there. *)
Definition chMap_of (cRef : ChannelReference) (s : subscriptionsSupervisor)
    : gmap string Handle :=
  default ∅ (subscriptions s !! cRef).

(** The loop [for _, sub := range subscribers] of the steady case, with
    [activeSubs] and [failedToSubscribe] as they stand.  The line logged by
    [Errorf] is kept as its format and the error it prints. *)
Fixpoint UpdateSubscriptions_subscribers (cRef : ChannelReference)
    (subscribers : list SubscriberSpec) (activeSubs : gmap string bool)
    (failedToSubscribe : gmap SubscriberSpec error)
    : M W (gmap string bool * gmap SubscriberSpec error) :=
  match subscribers with
  | [] => ret (activeSubs, failedToSubscribe)
  | sub :: subscribers' =>
      let subRef := newSubscriptionReference sub in
      let* s := get_sup in
      match chMap_of cRef s !! UID subRef with
      | Some _ =>
          UpdateSubscriptions_subscribers cRef subscribers'
            (<[UID subRef := true]> activeSubs) failedToSubscribe
      | None =>
          let* r := subscribe cRef subRef in
          match r with
          | Err err =>
              let* _ := logger_Error "failed to subscribe (subscription:%q) to channel: %v. Error:%s" (Some err) in
              let sub' := newSubscriptionReference sub in
              UpdateSubscriptions_subscribers cRef subscribers'
                activeSubs (<[sub' := err]> failedToSubscribe)
          | Ok natssSub =>
              let* _ := modify_sup (set_subscriptions (alter (insert (UID subRef) natssSub) cRef)) in
              UpdateSubscriptions_subscribers cRef subscribers'
                (<[UID subRef := true]> activeSubs) failedToSubscribe
          end
      end
  end.

(** [UpdateSubscriptions]; the mutex makes the call one step. *)
Definition UpdateSubscriptions (name ns : string) (subscribers : list SubscriberSpec)
    (isFinalizer : bool) : M W (gmap SubscriberSpec error * option error) :=
  let failedToSubscribe : gmap SubscriberSpec error := ∅ in
  let cRef := {| Namespace := ns; Name := name |} in
  if bool_decide (length subscribers = 0) || isFinalizer then
    let* s := get_sup in
    match subscriptions s !! cRef with
    | None => ret (failedToSubscribe, None)
    | Some chMap =>
        let* _ := for_range (range_keys chMap) (unsubscribe_logged cRef) in
        let* _ := modify_sup (set_subscriptions (delete cRef)) in
        ret (failedToSubscribe, None)
    end
  else
    let activeSubs : gmap string bool := ∅ in
    let* s := get_sup in
    let* _ := match subscriptions s !! cRef with
              | Some _ => ret tt
              | None => modify_sup (set_subscriptions (insert cRef ∅))
              end in
    let* (activeSubs, failedToSubscribe) :=
      UpdateSubscriptions_subscribers cRef subscribers activeSubs failedToSubscribe in
    let* s := get_sup in
    let* _ := for_range (range_keys (chMap_of cRef s))
                (λ sub, if default false (activeSubs !! sub) then ret tt
                        else unsubscribe_logged cRef sub) in
    let* s := get_sup in
    let* _ := if bool_decide (size (chMap_of cRef s) = 0)
              then modify_sup (set_subscriptions (delete cRef))
              else ret tt in
    ret (failedToSubscribe, None).

(** A [*url.URL] argument of [DispatchMessage]: set when the field is not
    empty, nil otherwise. *)
Definition url_of (u : option URL) : option URL :=
  if URL_IsEmpty u then None else u.

(** The dead letter URL of the callback: set when the subscription has a
    delivery with a dead letter sink whose URI is not empty. *)
Definition deadLetter_of (subscription : subscriptionReference) : option URL :=
  match Delivery subscription with
  | Some delivery =>
      match DeadLetterSink delivery with
      | Some sink => url_of (URI sink)
      | None => None
      end
  | None => None
  end.

(** The call of [DispatchMessage]: the acknowledgements the dispatcher made
    through the message are events of the run, ahead of the answer of the
    call. *)
Definition call_DispatchMessage (message : stan_Message)
    (destination reply deadLetter : option URL) : M W (outcome unit) :=
  λ st, let '((r, acks), w) :=
          DispatchMessage message destination reply deadLetter (world st) in
        (r, mkState w (sup st),
         (EvAck (Message_Msg message) <$> acks)
         ++ [EvDispatch (Message_event message) destination reply deadLetter r]).

(** The body of the callback [mcb], up to the point a panic unwinds it:
    [Some v] is a panic with value [v] on its way to the deferred function,
    [None] is a normal return. *)
Definition mcb_body (channel : ChannelReference) (subscription : subscriptionReference)
    (stanMsg : stan_Msg) : M W (option string) :=
  let* r := call (NewMessage stanMsg) (EvNewMessage stanMsg) in
  match r with
  | Panicked v => ret (Some v)
  | Failed err =>
      let* _ := logger_Error "could not create a message" (Some err) in
      ret None
  | Returned event =>
      let message := mkMessage stanMsg true event in
      let destination := url_of (SubscriberURI subscription) in
      let reply := url_of (ReplyURI subscription) in
      let deadLetter := deadLetter_of subscription in
      let* r := call_DispatchMessage message destination reply deadLetter in
      match r with
      | Panicked v => ret (Some v)
      | Failed err =>
          let* _ := logger_Error "Failed to dispatch message: " (Some err) in
          ret None
      | Returned _ =>
          let* r := call (Ack stanMsg) (EvAck stanMsg) in
          match r with
          | Panicked v => ret (Some v)
          | Failed err =>
              let* _ := logger_Error "failed to acknowledge message" (Some err) in
              ret None
          | Returned _ => ret None
          end
      end
  end.

(** [mcb]: the body under [defer func() { if r := recover(); r != nil ... }];
    the panic value is a field of the warning and is not kept. *)
Definition mcb (channel : ChannelReference) (subscription : subscriptionReference)
    (stanMsg : stan_Msg) : M W unit :=
  let* r := mcb_body channel subscription stanMsg in
  match r with
  | Some _ => logger_Warn "Panic happened while handling a message" None
  | None => ret tt
  end.

(** The success branch of [connectWithRetry]: the new connection is
    published and the in-progress flag cleared. *)
Definition connected (nConn : Conn) : M W unit :=
  modify_sup (set_natssConn (Some nConn) false).

(** What happens to the registry over time: reconciler calls, one at a time
    under the mutex, with the connection worker replacing the connection in
    between. *)
Inductive Step : Type :=
| StepUpdateSubscriptions (name ns : string) (subscribers : list SubscriberSpec)
                          (isFinalizer : bool)
| StepConnected (nConn : Conn).

Definition run_step (c : Step) : M W unit :=
  match c with
  | StepUpdateSubscriptions name ns subscribers isFinalizer =>
      let* _ := UpdateSubscriptions name ns subscribers isFinalizer in ret tt
  | StepConnected nConn => connected nConn
  end.

Definition run (cs : list Step) : M W unit := for_range cs run_step.

End Methods.

(** ** Reading the events of a run *)

(** The handles on which the backend's [Unsubscribe] was called, in order. *)
Definition unsubscribed (tr : list Event) : list Handle :=
  omap (λ ev, match ev with EvUnsubscribe h _ => Some h | _ => None end) tr.

(** The backend's [Subscribe] calls: subject and durable name. *)
Definition subscribed (tr : list Event) : list (string * string) :=
  omap (λ ev, match ev with
              | EvSubscribe _ subject opts _ => Some (subject, DurableName opts)
              | _ => None
              end) tr.

(** The subjects published to. *)
Definition published (tr : list Event) : list string :=
  omap (λ ev, match ev with EvSend _ subject _ _ => Some subject | _ => None end) tr.

(** The answers of the [Unsubscribe] calls that failed. *)
Definition unsubscribe_failures (tr : list Event) : list error :=
  omap (λ ev, match ev with EvUnsubscribe _ (Some e) => Some e | _ => None end) tr.

(** The answers of the [Subscribe] calls that failed. *)
Definition subscribe_failures (tr : list Event) : list error :=
  omap (λ ev, match ev with EvSubscribe _ _ _ (Err e) => Some e | _ => None end) tr.

Definition count_signalReconnect (tr : list Event) : nat :=
  length (omap (λ ev, match ev with EvSignalReconnect => Some tt | _ => None end) tr).

Definition count_Ack (tr : list Event) : nat :=
  length (omap (λ ev, match ev with EvAck m _ => Some m | _ => None end) tr).

(** The errors logged at error level. *)
Definition logged_errors (tr : list Event) : list (string * error) :=
  omap (λ ev, match ev with
              | EvLog ErrorLevel msg (Some e) => Some (msg, e)
              | _ => None
              end) tr.

(** ** A stub of the collaborators

    The test double the examples run against: the backend hands out handles
    [stub_next], [stub_next + 1], ...; its first [stub_unsubscribe_failures]
    calls of [Unsubscribe] fail; every other answer is fixed in the stub; its
    dispatcher leaves the message it is handed alone. *)
Record Stub : Type := mkStub {
  stub_next : Handle;
  stub_subscribe : option error;
  stub_unsubscribe_failures : nat;
  stub_sender : option error;
  stub_send : option error;
  stub_message : outcome Message;
  stub_dispatch : outcome unit;
  stub_ack : outcome unit
}.

Definition Stub_Subscribe (w : Stub) : result Handle * Stub :=
  match stub_subscribe w with
  | Some e => (Err e, w)
  | None =>
      (Ok (stub_next w),
       mkStub (S (stub_next w)) (stub_subscribe w) (stub_unsubscribe_failures w)
              (stub_sender w) (stub_send w) (stub_message w) (stub_dispatch w) (stub_ack w))
  end.

Definition Stub_Unsubscribe (w : Stub) : option error * Stub :=
  match stub_unsubscribe_failures w with
  | S n =>
      (Some (errors_New "stan: invalid subscription"),
       mkStub (stub_next w) (stub_subscribe w) n
              (stub_sender w) (stub_send w) (stub_message w) (stub_dispatch w) (stub_ack w))
  | O => (None, w)
  end.

#[global] Instance Stub_External : External Stub := {|
  Subscribe := λ _ _ _, Stub_Subscribe;
  Unsubscribe := λ _, Stub_Unsubscribe;
  NewSenderFromConn := λ _ _ w, (stub_sender w, w);
  Send := λ _ _ _ w, (stub_send w, w);
  NewMessage := λ _ w, (stub_message w, w);
  DispatchMessage := λ _ _ _ _ w, ((stub_dispatch w, []), w);
  Ack := λ _ w, (stub_ack w, w);
  range_keys := λ m, (map_to_list m).*1;
  range_keys_perm := λ m, reflexivity _;
  subscriptionReference_String := UID
|}.

(** The dispatcher of the eventing library and the message of the CloudEvents
    binding are dependencies of the package; their code is not among its
    sources.  [finishing] gives the collaborators the dispatcher of that
    library: it finishes the message it was handed once the delivery is over,
    whatever its outcome, and drops the error of the finish.  Finishing a
    message in manual-ack mode is one [Ack] of the backend message, and a
    panic of that [Ack] unwinds [DispatchMessage]. *)
Definition finishing {W : Type} (E : External W) : External W := {|
  Subscribe := @Subscribe W E;
  Unsubscribe := @Unsubscribe W E;
  NewSenderFromConn := @NewSenderFromConn W E;
  Send := @Send W E;
  NewMessage := @NewMessage W E;
  DispatchMessage := λ message destination reply deadLetter w,
    let '((r, acks), w1) := @DispatchMessage W E message destination reply deadLetter w in
    if Message_manualAcks message then
      let '(a, w2) := @Ack W E (Message_Msg message) w1 in
      ((match a with Panicked v => Panicked v | _ => r end, acks ++ [a]), w2)
    else ((r, acks), w1);
  Ack := @Ack W E;
  range_keys := @range_keys W E;
  range_keys_perm := @range_keys_perm W E;
  subscriptionReference_String := @subscriptionReference_String W E
|}.

(** A backend that answers every call with success. *)
Definition healthy : Stub :=
  mkStub 1 None 0 None None (Returned "event") (Returned tt) (Returned tt).

(** A backend whose first [Unsubscribe] fails. *)
Definition flaky : Stub :=
  mkStub 2 None 1 None None (Returned "event") (Returned tt) (Returned tt).

(** A backend that has closed the connection. *)
Definition closed : Stub :=
  mkStub 1 (Some ErrConnectionClosed) 0 None (Some ErrConnectionClosed)
         (Returned "event") (Returned tt) (Returned tt).

(** A subscriber as the scenarios write it: a uid and a subscriber URI. *)
Definition subscriber (uid : types_UID) (uri : URL) : SubscriberSpec :=
  mkSubscriberSpec uid 1 (Some uri) None None.

(** A connected supervisor with the given registry. *)
Definition supervisor_with (subs : SubscriptionChannelMapping) : subscriptionsSupervisor :=
  mkSupervisor subs 0 1 10 (Some 7) false ∅.

(** Channel [c1] of namespace [n1] and the registry in which it holds the
    subscription [u1] under handle 1. *)
Definition c1_n1 : ChannelReference := mkChannelReference "n1" "c1".
Definition registry_u1 : SubscriptionChannelMapping := {[ c1_n1 := {[ "u1" := 1 ]} ]}.

(** ** Predicates of the specification *)

(** The reference [newHostNameToChannelRefMap] stores for a channel. *)
Definition reference_of (c : Channel) : ChannelReference :=
  {| Name := Channel_Name c; Namespace := Channel_Namespace c |}.

(** Two entries of the list, the second later than the first, declare the
    same host. *)
Definition declare_same_host (cList : list Channel) (a b : Channel) : Prop :=
  ∃ i j, i < j ∧ cList !! i = Some a ∧ cList !! j = Some b
         ∧ Status_Address_URL_Host a = Status_Address_URL_Host b.

(** [m] holds exactly the channels of [seen], each under its host. *)
Definition holds (m : gmap string ChannelReference) (seen : list Channel) : Prop :=
  ∀ h cr, m !! h = Some cr ↔
          ∃ c, c ∈ seen ∧ Status_Address_URL_Host c = h ∧ cr = reference_of c.

(** No two distinct host names lead to the same channel. *)
Definition injective_map (m : gmap string ChannelReference) : Prop :=
  ∀ h1 h2 cr, m !! h1 = Some cr → m !! h2 = Some cr → h1 = h2.

(** Every subject handed to the backend or to the sender by a run. *)
Definition subjects (tr : list Event) : list string :=
  omap (λ ev, match ev with
              | EvSubscribe _ subject _ _ | EvNewSender _ subject _
              | EvSend _ subject _ _ => Some subject
              | _ => None
              end) tr.

(** Every channel key of the registry has a non-empty inner map. *)
Definition registry_nonempty (subs : gmap ChannelReference (gmap string Handle)) : Prop :=
  ∀ c m, subs !! c = Some m → m ≠ ∅.

(** ** The connection manager

    [Connect] is the worker that [Start] launches once; [connectWithRetry] is
    the task the worker launches to dial.  What [natsutil.Connect] and the
    [select] statements answer is given from outside, turn by turn. *)

(** What one turn of the loop of [connectWithRetry] meets: the dial returns a
    connection, or it fails and the [select] that follows sees the ticker
    fire ([ticked]) or the context end. *)
Inductive Attempt : Type :=
| DialOk (nConn : Conn)
| DialFailed (err : error) (ticked : bool).

Section Connection.
Context {W : Type}.

(** One turn of the loop of [connectWithRetry]; the result tells whether the
    function returns. *)
Definition connectWithRetry_turn (a : Attempt) : M W bool :=
  match a with
  | DialOk nConn =>
      let* _ := modify_sup (set_natssConn (Some nConn) false) in
      ret true
  | DialFailed err ticked =>
      let* _ := logger_Error "Connect() failed with error: %+v, retrying in %s" (Some err) in
      ret (negb ticked)
  end.

(** [connectWithRetry] against the turns it meets; [false] when they run out
    with the loop still waiting for its next turn. *)
Fixpoint connectWithRetry (attempts : list Attempt) : M W bool :=
  match attempts with
  | [] => ret false
  | a :: attempts' =>
      let* returned := connectWithRetry_turn a in
      if returned then ret true else connectWithRetry attempts'
  end.

(** [case <-s.connect]: takes a buffered request, if there is one. *)
Definition Connect_receive : M W bool :=
  let* s := get_sup in
  match connect s with
  | O => ret false
  | S n => let* _ := modify_sup (set_connect n) in ret true
  end.

(** [currentConnProgress := s.natssConnInProgress], under the mutex. *)
Definition Connect_read : M W bool :=
  let* s := get_sup in ret (natssConnInProgress s).

(** [s.natssConnInProgress = true], under the mutex. *)
Definition Connect_mark : M W unit :=
  modify_sup (λ s, set_natssConn (natssConn s) true s).

(** Where the worker stands in the loop of [Connect]: at the [select], with a
    request taken and the flag not yet read, with the flag read as false,
    with the flag set and the task not yet launched, or returned. *)
Inductive WorkerAt : Type := AtSelect | AtRead | AtMark | AtGo | Returned_.

(** The supervisor with its one worker and the retry tasks that run. *)
Record Manager : Type := mkManager {
  mgr_state : State W;
  mgr_worker : WorkerAt;
  mgr_retrying : nat
}.

(** The atomic steps of the threads around the connection: any thread calls
    [signalReconnect]; the worker takes a request, reads the flag, sets it,
    launches a task, or sees the context end; a running task takes a turn. *)
Inductive Action : Type :=
| ActSignal
| ActReceive
| ActRead
| ActMark
| ActGo
| ActDone
| ActRetry (a : Attempt).

(** One step; [None] when the thread cannot take it. *)
Definition step (act : Action) (m : Manager) : option Manager :=
  let st := mgr_state m in
  match act, mgr_worker m with
  | ActSignal, w =>
      Some (mkManager (after (signalReconnect st)) w (mgr_retrying m))
  | ActReceive, AtSelect =>
      let r := Connect_receive st in
      if value r then Some (mkManager (after r) AtRead (mgr_retrying m)) else None
  | ActRead, AtRead =>
      Some (mkManager st (if value (Connect_read st) then AtSelect else AtMark)
                      (mgr_retrying m))
  | ActMark, AtMark =>
      Some (mkManager (after (Connect_mark st)) AtGo (mgr_retrying m))
  | ActGo, AtGo => Some (mkManager st AtSelect (S (mgr_retrying m)))
  | ActDone, AtSelect => Some (mkManager st Returned_ (mgr_retrying m))
  | ActRetry a, w =>
      match mgr_retrying m with
      | O => None
      | S n =>
          let r := connectWithRetry_turn a st in
          Some (mkManager (after r) w (if value r then n else S n))
      end
  | _, _ => None
  end.

(** A schedule of steps, each of which must be possible. *)
Fixpoint steps (acts : list Action) (m : Manager) : option Manager :=
  match acts with
  | [] => Some m
  | act :: acts' =>
      match step act m with
      | Some m' => steps acts' m'
      | None => None
      end
  end.

(** What holds of the manager at every step: a retry task runs only with the
    flag set and the worker outside the lines between its read of the flag
    and its launch of a task. *)
Definition manager_inv (m : Manager) : Prop :=
  match mgr_worker m with
  | AtMark => mgr_retrying m = 0
  | AtGo => mgr_retrying m = 0 ∧ natssConnInProgress (sup (mgr_state m)) = true
  | _ => mgr_retrying m = 0
         ∨ (mgr_retrying m = 1 ∧ natssConnInProgress (sup (mgr_state m)) = true)
  end.

End Connection.

(** ** More to read from a run *)

(** The text of the lines logged at error level and at warning level. *)
Definition error_lines (tr : list Event) : list string :=
  omap (λ ev, match ev with EvLog ErrorLevel msg _ => Some msg | _ => None end) tr.
Definition warn_lines (tr : list Event) : list string :=
  omap (λ ev, match ev with EvLog WarnLevel msg _ => Some msg | _ => None end) tr.

(** [s'] differs from [s] in the registry and the buffer of reconnect
    requests at most, and the buffer has not passed its capacity. *)
Definition keeps_connection (s s' : subscriptionsSupervisor) : Prop :=
  natssConn s' = natssConn s
  ∧ natssConnInProgress s' = natssConnInProgress s
  ∧ hostToChannelMap s' = hostToChannelMap s
  ∧ ackWaitMinutes s' = ackWaitMinutes s
  ∧ maxInflight s' = maxInflight s
  ∧ (connect s ≤ maxElements → connect s' ≤ maxElements).

(** The error [subscribe] and the publisher return without a connection. *)
Definition noConnection : error := errors_New "no Connection to NATSS".

(** * Properties *)

(** ** The router *)

Lemma holds_empty : holds ∅ [].
Proof.
  intros h cr. rewrite lookup_empty. split; [done|].
  intros (c & Hc & _). by apply elem_of_nil in Hc.
Qed.

Lemma holds_snoc m seen c :
  holds m seen → m !! Status_Address_URL_Host c = None →
  holds (<[Status_Address_URL_Host c := reference_of c]> m) (seen ++ [c]).
Proof.
  intros Hm Hfresh h cr. rewrite lookup_insert. case_decide as Hh.
  - subst h. split.
    + intros [= <-]. exists c. split; [|done]. apply elem_of_app. right. by left.
    + intros (c' & [Hin | ->%list_elem_of_singleton]%elem_of_app & Hhost & ->); [|done].
      assert (m !! Status_Address_URL_Host c = Some (reference_of c')) as Hcontra
        by (apply Hm; eauto).
      congruence.
  - rewrite (Hm h cr). split.
    + intros (c' & Hin & Hhost & ->). exists c'. split; [|done]. apply elem_of_app. by left.
    + intros (c' & [Hin | ->%list_elem_of_singleton]%elem_of_app & Hhost & ->); [|done].
      by exists c'.
Qed.

(** The loop from any point: on success no host repeats and the map holds the
    whole list; on failure the error names a later channel and an earlier one
    with its host. *)
Lemma newHostNameToChannelRefMap_from_spec (cList seen : list Channel)
    (m : gmap string ChannelReference) :
  holds m seen →
  match newHostNameToChannelRefMap_from m cList with
  | Ok m' =>
      holds m' (seen ++ cList)
      ∧ NoDup (Status_Address_URL_Host <$> cList)
      ∧ (∀ c, c ∈ cList → m !! Status_Address_URL_Host c = None)
  | Err e =>
      ∃ a b, declare_same_host (seen ++ cList) a b
             ∧ e = duplicateHostNameError (Status_Address_URL_Host b)
                     (Channel_Namespace b) (Channel_Name b)
                     (Channel_Namespace a) (Channel_Name a)
  end.
Proof.
  revert seen m. induction cList as [|c cList IH]; intros seen m Hm; simpl.
  - rewrite app_nil_r. split_and!; [done|constructor|].
    intros c Hc. by apply elem_of_nil in Hc.
  - destruct (m !! Status_Address_URL_Host c) as [cr|] eqn:Hlk.
    + apply Hm in Hlk as (a & Ha & Hhost & ->).
      apply list_elem_of_lookup in Ha as [i Hi].
      exists a, c. split; [|done].
      exists i, (length seen). split_and!.
      * by apply lookup_lt_Some in Hi.
      * by apply lookup_app_l_Some.
      * by rewrite list_lookup_middle.
      * done.
    + specialize (IH (seen ++ [c]) _ (holds_snoc _ _ _ Hm Hlk)).
      rewrite <-(assoc_L (++)) in IH. simpl in IH.
      destruct (newHostNameToChannelRefMap_from _ cList) as [m'|e]; [|done].
      destruct IH as (Hm' & Hnd & Hfresh). split_and!; [done| |].
      * simpl. constructor; [|done].
        intros (c' & Heq & Hc')%list_elem_of_fmap.
        specialize (Hfresh c' Hc'). rewrite <-Heq in Hfresh.
        by rewrite lookup_insert_eq in Hfresh.
      * intros c' [->|Hc']%elem_of_cons; [done|].
        specialize (Hfresh c' Hc').
        apply lookup_insert_None in Hfresh. tauto.
Qed.

Lemma declare_same_host_not_NoDup cList a b :
  declare_same_host cList a b → ¬ NoDup (Status_Address_URL_Host <$> cList).
Proof.
  intros (i & j & Hlt & Hi & Hj & Heq) Hnd.
  assert (i = j); [|lia].
  eapply NoDup_lookup; [exact Hnd| |]; rewrite list_lookup_fmap.
  - by rewrite Hi.
  - rewrite Hj. simpl. by rewrite Heq.
Qed.

(** A build over a list with a repeated host fails, and the error names two
    channels of the list that share a host. *)
Lemma newHostNameToChannelRefMap_duplicate cList a b :
  declare_same_host cList a b →
  ∃ a' b', declare_same_host cList a' b'
    ∧ newHostNameToChannelRefMap cList =
        Err (duplicateHostNameError (Status_Address_URL_Host b')
               (Channel_Namespace b') (Channel_Name b')
               (Channel_Namespace a') (Channel_Name a')).
Proof.
  intros Hdup. unfold newHostNameToChannelRefMap.
  pose proof (newHostNameToChannelRefMap_from_spec cList [] ∅ holds_empty) as Hspec.
  destruct (newHostNameToChannelRefMap_from ∅ cList) as [m'|e].
  - destruct Hspec as (_ & Hnd & _).
    by apply declare_same_host_not_NoDup in Hdup.
  - destruct Hspec as (a' & b' & Hdup' & ->). by exists a', b'.
Qed.

Lemma newHostNameToChannelRefMap_Ok cList m :
  newHostNameToChannelRefMap cList = Ok m →
  holds m cList ∧ NoDup (Status_Address_URL_Host <$> cList).
Proof.
  unfold newHostNameToChannelRefMap. intros Heq.
  pose proof (newHostNameToChannelRefMap_from_spec cList [] ∅ holds_empty) as Hspec.
  rewrite Heq in Hspec. tauto.
Qed.

(** C3: when two channels of the list declare the same host,
    [ProcessChannels] returns the duplicate-host error, whose text carries the
    host and the namespace and name of two channels of the list that declare
    it; the supervisor, and with it the installed host map, is what it was, so
    [getChannelReferenceFromHost] answers every host as before the call. *)
Theorem ProcessChannels_duplicate_host (s : subscriptionsSupervisor)
    (chanList : list Channel) (a b : Channel) :
  declare_same_host chanList a b →
  ∃ a' b' err,
    declare_same_host chanList a' b'
    ∧ (ProcessChannels chanList s).1 = Some err
    ∧ Error err =
        "duplicate hostName found. Each channel must have a unique host header. HostName:"
        +:+ Status_Address_URL_Host b'
        +:+ ", channel:" +:+ Channel_Namespace b' +:+ "." +:+ Channel_Name b'
        +:+ ", channel:" +:+ Channel_Namespace a' +:+ "." +:+ Channel_Name a'
    ∧ (ProcessChannels chanList s).2 = s
    ∧ getHostToChannelMap (ProcessChannels chanList s).2 = getHostToChannelMap s
    ∧ ∀ host, getChannelReferenceFromHost (ProcessChannels chanList s).2 host
              = getChannelReferenceFromHost s host.
Proof.
  intros Hdup.
  destruct (newHostNameToChannelRefMap_duplicate _ _ _ Hdup) as (a' & b' & Hdup' & Heq).
  exists a', b', (duplicateHostNameError (Status_Address_URL_Host b')
                    (Channel_Namespace b') (Channel_Name b')
                    (Channel_Namespace a') (Channel_Name a')).
  unfold ProcessChannels. rewrite Heq. simpl. done.
Qed.

(** The list of scenario 6 after the rebuild of scenario 1: host [h1] is
    installed for [c1.n1], then claimed by [c1] and by [c2]. *)
Lemma ProcessChannels_duplicate_host_witness :
  let s := (ProcessChannels [mkChannel "n1" "c1" "h1"] (NewNatssDispatcher 1 1)).2 in
  let chanList := [mkChannel "n1" "c1" "h1"; mkChannel "n1" "c2" "h1"] in
  declare_same_host chanList (mkChannel "n1" "c1" "h1") (mkChannel "n1" "c2" "h1")
  ∧ (ProcessChannels chanList s).2 = s
  ∧ getChannelReferenceFromHost (ProcessChannels chanList s).2 "h1"
    = (mkChannelReference "n1" "c1", None).
Proof.
  intros s chanList.
  assert (declare_same_host chanList (mkChannel "n1" "c1" "h1") (mkChannel "n1" "c2" "h1"))
    as Hdup by (exists 0, 1; split_and!; [lia|reflexivity..]).
  split; [exact Hdup|].
  destruct (ProcessChannels_duplicate_host s chanList _ _ Hdup)
    as (a' & b' & err & _ & _ & _ & Hs & _ & Hlookup).
  split; [exact Hs|].
  rewrite Hlookup. reflexivity.
Defined.

(** C6, as amended: a successful [ProcessChannels] installs the map that sends
    each host name to the one channel of the list that declares it, no host
    name being declared twice; that map is injective whenever the channels of
    the list have pairwise distinct references; and a list in which two
    channels claim the same host name is rejected, the supervisor staying as
    it was. *)
Theorem ProcessChannels_installed_map (s : subscriptionsSupervisor) (chanList : list Channel) :
  ((ProcessChannels chanList s).1 = None →
     let m := getHostToChannelMap (ProcessChannels chanList s).2 in
     NoDup (Status_Address_URL_Host <$> chanList)
     ∧ (∀ h cr, m !! h = Some cr ↔
                ∃ c, c ∈ chanList ∧ Status_Address_URL_Host c = h ∧ cr = reference_of c)
     ∧ (NoDup (reference_of <$> chanList) → injective_map m))
  ∧ (∀ a b, declare_same_host chanList a b →
            ∃ err, ProcessChannels chanList s = (Some err, s)).
Proof.
  split.
  - unfold ProcessChannels.
    destruct (newHostNameToChannelRefMap chanList) as [m|e] eqn:Hbuild; [|done].
    intros _. simpl. apply newHostNameToChannelRefMap_Ok in Hbuild as [Hm Hnd].
    split_and!; [done|exact Hm|].
    intros Hrefs h1 h2 cr (c1 & Hc1 & <- & ->)%Hm (c2 & Hc2 & <- & Heq)%Hm.
    apply list_elem_of_lookup in Hc1 as [i Hi], Hc2 as [j Hj].
    assert (i = j) as ->; [|congruence].
    eapply NoDup_lookup; [exact Hrefs| |]; rewrite list_lookup_fmap.
    + by rewrite Hi.
    + rewrite Hj. simpl. by rewrite Heq.
  - intros a b Hdup.
    destruct (newHostNameToChannelRefMap_duplicate _ _ _ Hdup) as (a' & b' & _ & Heq).
    unfold ProcessChannels. rewrite Heq. eauto.
Qed.

(** Scenario 1 with a second channel on its own host, and scenario 6. *)
Lemma ProcessChannels_installed_map_witness :
  let s := NewNatssDispatcher 1 1 in
  let good := [mkChannel "n1" "c1" "h1"; mkChannel "n1" "c2" "h2"] in
  let bad := [mkChannel "n1" "c1" "h1"; mkChannel "n1" "c2" "h1"] in
  (ProcessChannels good s).1 = None
  ∧ NoDup (reference_of <$> good)
  ∧ injective_map (getHostToChannelMap (ProcessChannels good s).2)
  ∧ declare_same_host bad (mkChannel "n1" "c1" "h1") (mkChannel "n1" "c2" "h1")
  ∧ ∃ err, ProcessChannels bad s = (Some err, s).
Proof.
  intros s good bad.
  assert ((ProcessChannels good s).1 = None) as Hok by reflexivity.
  assert (NoDup (reference_of <$> good)) as Hrefs by (apply (bool_decide_unpack _); vm_compute; exact I).
  assert (declare_same_host bad (mkChannel "n1" "c1" "h1") (mkChannel "n1" "c2" "h1"))
    as Hdup by (exists 0, 1; split_and!; [lia|reflexivity..]).
  split_and!; [exact Hok|exact Hrefs| |exact Hdup|].
  - destruct (ProcessChannels_installed_map s good) as [Hgood _].
    destruct (Hgood Hok) as (_ & _ & Hinj). exact (Hinj Hrefs).
  - destruct (ProcessChannels_installed_map s bad) as [_ Hbad].
    exact (Hbad _ _ Hdup).
Defined.

(** C6 as stated fails: the build looks at host names only, so one channel
    reference listed under two host names is installed under both. *)
Lemma ProcessChannels_installed_map_not_injective :
  let chanList := [mkChannel "n1" "c1" "h1"; mkChannel "n1" "c1" "h2"] in
  let r := ProcessChannels chanList (NewNatssDispatcher 1 1) in
  r.1 = None
  ∧ getHostToChannelMap r.2 !! "h1" = Some (mkChannelReference "n1" "c1")
  ∧ getHostToChannelMap r.2 !! "h2" = Some (mkChannelReference "n1" "c1")
  ∧ ¬ injective_map (getHostToChannelMap r.2).
Proof.
  intros chanList r.
  assert (getHostToChannelMap r.2 !! "h1" = Some (mkChannelReference "n1" "c1")) as H1
    by (vm_compute; reflexivity).
  assert (getHostToChannelMap r.2 !! "h2" = Some (mkChannelReference "n1" "c1")) as H2
    by (vm_compute; reflexivity).
  split_and!; [reflexivity|exact H1|exact H2|].
  intros Hinj. specialize (Hinj _ _ _ H1 H2). discriminate Hinj.
Qed.

(** ** Subjects, reconnect signals, acknowledgements *)

Section Straight_line.
Context {W : Type} `{!External W}.

(** C9: the subject of a channel is its name, one dot, its namespace; a
    successful publish of the HTTP receive path sends once, to that subject;
    a successful [subscribe] subscribes once, to that subject; and no run of
    either hands any other subject to the backend. *)
Theorem subject_name_dot_namespace (ref : ChannelReference) (message : Message)
    (subscription : subscriptionReference) (st : State W) :
  getSubject ref = Name ref +:+ "." +:+ Namespace ref
  ∧ Forall (λ s, s = Name ref +:+ "." +:+ Namespace ref)
           (subjects (events (messageReceiverFunc ref message st)))
  ∧ Forall (λ s, s = Name ref +:+ "." +:+ Namespace ref)
           (subjects (events (subscribe ref subscription st)))
  ∧ (value (messageReceiverFunc ref message st) = None →
     published (events (messageReceiverFunc ref message st))
     = [Name ref +:+ "." +:+ Namespace ref])
  ∧ (∀ natssSub, value (subscribe ref subscription st) = Ok natssSub →
     subscribed (events (subscribe ref subscription st))
     = [(Name ref +:+ "." +:+ Namespace ref, subscriptionReference_String subscription)]).
Proof.
  split; [reflexivity|].
  unfold messageReceiverFunc, subscribe, signalReconnect, bind, call, get_sup,
    modify_sup, logger_Error, emit, ret.
  cbn -[String.append decide].
  destruct (natssConn (sup st)) as [conn|]; cbn -[String.append decide];
    [|split_and!; repeat first [done | constructor | intros ?]].
  destruct (Subscribe conn (getSubject ref) _ (world st)) as [[h|e2] w2];
    destruct (NewSenderFromConn conn (getSubject ref) (world st)) as [[e1|] w1];
    cbn -[String.append decide];
    try (destruct (Send conn (getSubject ref) message w1) as [[e3|] w3]);
    cbn -[String.append decide];
    repeat (case_decide; cbn -[String.append decide]);
    split_and!; repeat first [done | constructor | intros ?].
Qed.

(** C7: when the send of the HTTP receive path fails, [signalReconnect] is
    called once if the error prints as [ErrConnectionClosed] and not at all
    otherwise, and the caller gets the error, wrapped; when the backend's
    subscribe fails, [subscribe] calls [signalReconnect] once if the error
    prints as [ErrConnectionClosed] and not at all otherwise, and the caller
    gets the error itself. *)
Theorem connection_closed_signals_reconnect (channel : ChannelReference)
    (message : Message) (subscription : subscriptionReference) (st : State W)
    (conn : Conn) (err : error) (w1 w2 : W) :
  natssConn (sup st) = Some conn →
  (NewSenderFromConn conn (getSubject channel) (world st) = (None, w1) →
   Send conn (getSubject channel) message w1 = (Some err, w2) →
   let r := messageReceiverFunc channel message st in
   count_signalReconnect (events r)
     = (if decide (Error err = Error ErrConnectionClosed) then 1 else 0)
   ∧ (∃ errMsg, value r = Some (errors_Wrap err errMsg))
   ∧ (∀ e, value r = Some e → Cause e = Cause err))
  ∧ (Subscribe conn (getSubject channel)
       (mkOpts (subscriptionReference_String subscription)
               (ackWaitMinutes (sup st)) (maxInflight (sup st))) (world st)
     = (Err err, w2) →
     let r := subscribe channel subscription st in
     count_signalReconnect (events r)
       = (if decide (Error err = Error ErrConnectionClosed) then 1 else 0)
     ∧ value r = Err err).
Proof.
  intros Hconn. split.
  - intros Hsender Hsend.
    unfold messageReceiverFunc, signalReconnect, bind, call, get_sup, modify_sup,
      logger_Error, emit, ret.
    cbn -[String.append decide]. rewrite Hconn. cbn -[String.append decide].
    rewrite Hsender. cbn -[String.append decide].
    rewrite Hsend. cbn -[String.append decide].
    repeat (case_decide; cbn -[String.append decide]);
      split_and!; eauto; intros e [= <-]; reflexivity.
  - intros Hsub.
    unfold subscribe, signalReconnect, bind, call, get_sup, modify_sup,
      logger_Error, emit, ret.
    cbn -[String.append decide]. rewrite Hconn. cbn -[String.append decide].
    rewrite Hsub. cbn -[String.append decide].
    repeat (case_decide; cbn -[String.append decide]); done.
Qed.

(** The acknowledgements of one run of the callback: those the dispatcher
    made through the message it was handed, and the one of line 331 when the
    message was built and [DispatchMessage] returned without error. *)
Lemma mcb_count_Ack (channel : ChannelReference)
    (subscription : subscriptionReference) (stanMsg : stan_Msg) (st : State W) :
  let r := mcb channel subscription stanMsg st in
  match NewMessage stanMsg (world st) with
  | (Returned event, w1) =>
      let answer :=
        DispatchMessage (mkMessage stanMsg true event)
          (url_of (SubscriberURI subscription)) (url_of (ReplyURI subscription))
          (deadLetter_of subscription) w1 in
      count_Ack (events r)
      = length answer.1.2 + (if returned answer.1.1 then 1 else 0)
  | _ => count_Ack (events r) = 0
  end.
Proof.
  unfold mcb, mcb_body, call_DispatchMessage, bind, call, logger_Error, logger_Warn,
    emit, ret, count_Ack.
  cbn -[String.append].
  destruct (NewMessage stanMsg (world st)) as [[event| |] w1]; cbn -[String.append];
    [|done..].
  destruct (DispatchMessage _ _ _ _ w1) as [[o acks] w2]. cbn -[String.append].
  assert (∀ tl : list Event,
    length (omap (λ ev, match ev with EvAck m _ => Some m | _ => None end)
              ((EvAck stanMsg <$> acks) ++ tl))
    = length acks
      + length (omap (λ ev, match ev with EvAck m _ => Some m | _ => None end) tl))
    as Hacks.
  { intros tl. induction acks as [|a acks IH]; [done|]. cbn. by rewrite IH. }
  destruct o as [[]| |]; cbn -[String.append];
    [destruct (Ack stanMsg w2) as [[| |] w3]; cbn -[String.append]|..];
    rewrite ?app_nil_r, <-?(assoc_L (++)); rewrite Hacks; cbn; lia.
Qed.

(** An error of the [Ack] of line 331 is logged and the body of the callback
    returns normally, with no panic for the deferred function to recover. *)
Lemma mcb_Ack_error_logged (channel : ChannelReference)
    (subscription : subscriptionReference) (stanMsg : stan_Msg) (st : State W)
    (event : Message) (w1 w2 w3 : W) (u : unit) (acks : list (outcome unit)) (e : error) :
  NewMessage stanMsg (world st) = (Returned event, w1) →
  DispatchMessage (mkMessage stanMsg true event)
    (url_of (SubscriberURI subscription)) (url_of (ReplyURI subscription))
    (deadLetter_of subscription) w1 = ((Returned u, acks), w2) →
  Ack stanMsg w2 = (Failed e, w3) →
  ("failed to acknowledge message", e)
    ∈ logged_errors (events (mcb channel subscription stanMsg st))
  ∧ value (mcb_body channel subscription stanMsg st) = None.
Proof.
  intros Hnew Hdispatch Hack.
  unfold mcb, mcb_body, call_DispatchMessage, bind, call, logger_Error, logger_Warn,
    emit, ret, logged_errors.
  cbn -[String.append]. rewrite Hnew. cbn -[String.append].
  rewrite Hdispatch. cbn -[String.append]. rewrite Hack. cbn -[String.append].
  split; [|done]. rewrite app_nil_r, !omap_app. cbn -[String.append].
  apply elem_of_app. right. left.
Qed.

End Straight_line.

(** ** The registry *)

Section Registry.
Context {W : Type} `{!External W}.

(** What one call of [unsubscribe] does, by the entry it finds and the
    backend's answer. *)
Lemma unsubscribe_run (channel : ChannelReference) (subscription : types_UID)
    (st : State W) :
  unsubscribe channel subscription st =
  match handle_at channel subscription (sup st) with
  | Some stanSub =>
      match Unsubscribe stanSub (world st) with
      | (Some err, w) =>
          (Some err, mkState w (sup st),
           [EvUnsubscribe stanSub (Some err);
            EvLog ErrorLevel "Unsubscribing NATSS Streaming subscription failed: " (Some err)])
      | (None, w) =>
          (None,
           mkState w (set_subscriptions (alter (delete subscription) channel) (sup st)),
           [EvUnsubscribe stanSub None])
      end
  | None => (None, st, [])
  end.
Proof.
  unfold unsubscribe, bind, call, get_sup, modify_sup, logger_Error, emit, ret.
  cbn -[String.append].
  destruct (handle_at channel subscription (sup st)) as [stanSub|]; [|done].
  cbn -[String.append].
  by destruct (Unsubscribe stanSub (world st)) as [[err|] w].
Qed.

(** C2, as amended: when the registry holds a handle for the channel and the
    uid, [unsubscribe] calls the backend's [Unsubscribe] on it once and
    returns the backend's answer; when that answer is no error the entry is
    removed and every other entry stays; when it is an error the registry is
    left as it was, entry included, and the error is logged. *)
Theorem unsubscribe_removes_on_success (channel : ChannelReference)
    (subscription : types_UID) (st : State W) (stanSub : Handle) :
  handle_at channel subscription (sup st) = Some stanSub →
  let r := unsubscribe channel subscription st in
  unsubscribed (events r) = [stanSub]
  ∧ value r = (Unsubscribe stanSub (world st)).1
  ∧ world (after r) = (Unsubscribe stanSub (world st)).2
  ∧ (value r = None →
     handle_at channel subscription (sup (after r)) = None
     ∧ ∀ c u, (c, u) ≠ (channel, subscription) →
              handle_at c u (sup (after r)) = handle_at c u (sup st))
  ∧ (∀ err, value r = Some err →
     sup (after r) = sup st
     ∧ handle_at channel subscription (sup (after r)) = Some stanSub
     ∧ logged_errors (events r)
       = [("Unsubscribing NATSS Streaming subscription failed: ", err)]).
Proof.
  intros Hh r. subst r. rewrite unsubscribe_run, Hh.
  destruct (Unsubscribe stanSub (world st)) as [[err|] w]; cbn -[String.append].
  - split_and!; [done|done|done|done|]. by intros ? [= <-].
  - split_and!; [done..| |done]. intros _.
    unfold handle_at in *. cbn. split.
    + rewrite lookup_alter_eq.
      destruct (subscriptions (sup st) !! channel) as [chMap|]; [|done].
      cbn. apply lookup_delete_eq.
    + intros c u Hne. destruct (decide (c = channel)) as [->|Hc].
      * rewrite lookup_alter_eq.
        destruct (subscriptions (sup st) !! channel) as [chMap|]; [|done].
        cbn. apply lookup_delete_ne. congruence.
      * by rewrite lookup_alter_ne.
Qed.

(** *** Runs of composed methods *)

Lemma value_bind {A B} (m : M W A) (k : A → M W B) (st : State W) :
  value (bind m k st) = value (k (value (m st)) (after (m st))).
Proof.
  unfold bind, value, after. destruct (m st) as [[a st1] t1]. simpl.
  by destruct (k a st1) as [[b st2] t2].
Qed.

Lemma after_bind {A B} (m : M W A) (k : A → M W B) (st : State W) :
  after (bind m k st) = after (k (value (m st)) (after (m st))).
Proof.
  unfold bind, value, after. destruct (m st) as [[a st1] t1]. simpl.
  by destruct (k a st1) as [[b st2] t2].
Qed.

Lemma events_bind {A B} (m : M W A) (k : A → M W B) (st : State W) :
  events (bind m k st) = events (m st) ++ events (k (value (m st)) (after (m st))).
Proof.
  unfold bind, value, after, events. destruct (m st) as [[a st1] t1]. simpl.
  by destruct (k a st1) as [[b st2] t2].
Qed.

Lemma set_subscriptions_insert_id (s : subscriptionsSupervisor) (c : ChannelReference)
    (m : gmap string Handle) :
  subscriptions s !! c = Some m → set_subscriptions (insert c m) s = s.
Proof.
  intros Hm. destruct s. unfold set_subscriptions. simpl in *.
  by rewrite insert_id.
Qed.

Lemma handle_at_Some (s : subscriptionsSupervisor) (c : ChannelReference)
    (m : gmap string Handle) (k : string) :
  subscriptions s !! c = Some m → handle_at c k s = m !! k.
Proof. intros Hm. unfold handle_at. by rewrite Hm. Qed.

Lemma unsubscribe_logged_run (cRef : ChannelReference) (sub : types_UID) (st : State W) :
  unsubscribe_logged cRef sub st =
  (tt, after (unsubscribe cRef sub st),
   events (unsubscribe cRef sub st)
   ++ [EvLog ErrorLevel "unsubscribe" (value (unsubscribe cRef sub st))]).
Proof.
  unfold unsubscribe_logged, logger_Error, emit, bind, value, after, events.
  by destruct (unsubscribe cRef sub st) as [[err st1] t1].
Qed.

(** *** The unsubscribe loops

    Both loops [for sub := range chMap] visit keys without repetition and
    unsubscribe those not skipped: none is skipped on teardown, the active
    ones are in the steady case. *)
Lemma unsubscribe_loop (cRef : ChannelReference) (skip : string → bool) (ks : list string) :
  NoDup ks → ∀ (st : State W) (m : gmap string Handle),
  subscriptions (sup st) !! cRef = Some m →
  let r := for_range ks (λ sub, if skip sub then ret tt
                                else unsubscribe_logged cRef sub) st in
  ∃ m',
    sup (after r) = set_subscriptions (insert cRef m') (sup st)
    ∧ (∀ k, m' !! k = m !! k ∨ (m' !! k = None ∧ k ∈ ks ∧ skip k = false))
    ∧ unsubscribed (events r) = omap (λ k, if skip k then None else m !! k) ks
    ∧ subscribed (events r) = []
    ∧ subscribe_failures (events r) = []
    ∧ (unsubscribe_failures (events r) = [] →
       ∀ k, k ∈ ks → skip k = false → m' !! k = None)
    ∧ (∀ e, e ∈ unsubscribe_failures (events r) →
            ("unsubscribe", e) ∈ logged_errors (events r)).
Proof.
  intros Hks. induction Hks as [|k ks' Hk Hnd IH]; intros st m Hm; simpl.
  { exists m. split_and!; try done.
    - by rewrite set_subscriptions_insert_id.
    - by left.
    - intros _ k Hk. by apply elem_of_nil in Hk.
    - intros e He. by apply elem_of_nil in He. }
  assert (∀ m' : gmap string Handle,
    (∀ k0, m' !! k0 = m !! k0 ∨ (m' !! k0 = None ∧ k0 ∈ ks' ∧ skip k0 = false)) →
    ∀ k0, m' !! k0 = m !! k0 ∨ (m' !! k0 = None ∧ k0 ∈ k :: ks' ∧ skip k0 = false))
    as Hweaken.
  { intros m' Hm' k0. destruct (Hm' k0) as [?|(? & ? & ?)]; [by left|right].
    split_and!; [done| |done]. by right. }
  rewrite after_bind, events_bind.
  destruct (skip k) eqn:Hskip.
  { destruct (IH st m Hm) as (m' & Hsup & Hm' & Hun & Hsub & Hsf & Hall & Hlog).
    exists m'. cbn -[String.append]. split_and!; try done.
    - by apply Hweaken.
    - intros Hnf k0 [->|Hk0]%elem_of_cons Hs; [congruence|]. by apply Hall. }
  rewrite !unsubscribe_logged_run, unsubscribe_run, (handle_at_Some _ _ m) by done.
  unfold unsubscribed, subscribed, subscribe_failures, unsubscribe_failures,
    logged_errors in *.
  destruct (m !! k) as [h|] eqn:Hmk; [destruct (Unsubscribe h (world st)) as [[err|] w]|];
    cbn -[String.append for_range]; rewrite ?Hskip, ?Hmk.
  - destruct (IH (mkState w (sup st)) m Hm)
      as (m' & Hsup & Hm' & Hun & Hsub & Hsf & Hall & Hlog).
    exists m'. split_and!.
    + exact Hsup.
    + by apply Hweaken.
    + by rewrite Hun.
    + exact Hsub.
    + exact Hsf.
    + intros [=].
    + intros e [->|He]%elem_of_cons; [right; left|do 2 right; by apply Hlog].
  - assert (subscriptions (sup (mkState w (set_subscriptions
              (alter (delete k) cRef) (sup st)))) !! cRef = Some (delete k m)) as Hm1.
    { simpl. by rewrite lookup_alter_eq, Hm. }
    destruct (IH _ _ Hm1) as (m' & Hsup & Hm' & Hun & Hsub & Hsf & Hall & Hlog).
    assert (m' !! k = None) as Hgone.
    { destruct (Hm' k) as [Heq|(? & _)]; [|done]. by rewrite Heq, lookup_delete_eq. }
    exists m'. split_and!.
    + rewrite Hsup. destruct (sup st). unfold set_subscriptions. simpl.
      by rewrite insert_alter_eq.
    + intros k0. destruct (decide (k0 = k)) as [->|Hne].
      * right. split_and!; [done|by left|done].
      * destruct (Hm' k0) as [Heq|(? & ? & ?)].
        -- left. by rewrite Heq, lookup_delete_ne.
        -- right. split_and!; [done| |done]. by right.
    + rewrite Hun. f_equal. apply list_omap_ext, Forall2_same_length_lookup.
      split; [done|]. intros i k1 k2 Hk1 Hk2.
      assert (k1 = k2) as <- by congruence.
      destruct (skip k1); [done|]. apply lookup_delete_ne.
      intros ->. apply Hk. by eapply list_elem_of_lookup_2.
    + exact Hsub.
    + exact Hsf.
    + intros Hnf k0 [->|Hk0]%elem_of_cons Hs; [done|by apply Hall].
    + exact Hlog.
  - destruct (IH st m Hm) as (m' & Hsup & Hm' & Hun & Hsub & Hsf & Hall & Hlog).
    exists m'. split_and!.
    + exact Hsup.
    + by apply Hweaken.
    + exact Hun.
    + exact Hsub.
    + exact Hsf.
    + intros Hnf k0 [->|Hk0]%elem_of_cons Hs; [|by apply Hall].
      destruct (Hm' k) as [Heq|(? & _)]; [|done]. by rewrite Heq.
    + exact Hlog.
Qed.

(** The teardown loop skips no key. *)
Lemma unsubscribe_all (cRef : ChannelReference) (ks : list string) :
  NoDup ks → ∀ (st : State W) (m : gmap string Handle),
  subscriptions (sup st) !! cRef = Some m →
  let r := for_range ks (unsubscribe_logged cRef) st in
  ∃ m',
    sup (after r) = set_subscriptions (insert cRef m') (sup st)
    ∧ unsubscribed (events r) = omap (λ k, m !! k) ks
    ∧ subscribed (events r) = []
    ∧ subscribe_failures (events r) = []
    ∧ (∀ e, e ∈ unsubscribe_failures (events r) →
            ("unsubscribe", e) ∈ logged_errors (events r)).
Proof.
  intros Hks st m Hm.
  destruct (unsubscribe_loop cRef (λ _, false) ks Hks st m Hm)
    as (m' & Hsup & _ & Hun & Hsub & Hsf & _ & Hlog).
  exists m'. split_and!; [exact Hsup|exact Hun|exact Hsub|exact Hsf|exact Hlog].
Qed.

(** *** The subscribe loop *)

(** [subscribe] leaves the registry alone and unsubscribes nothing; a
    failed backend call is the error it returns. *)
Lemma subscribe_frame (channel : ChannelReference) (subscription : subscriptionReference)
    (st : State W) :
  let r := subscribe channel subscription st in
  subscriptions (sup (after r)) = subscriptions (sup st)
  ∧ unsubscribed (events r) = []
  ∧ unsubscribe_failures (events r) = []
  ∧ match value r with
    | Ok _ => subscribe_failures (events r) = []
    | Err e => ∀ e', e' ∈ subscribe_failures (events r) → e' = e
    end.
Proof.
  unfold subscribe, signalReconnect, bind, call, get_sup, modify_sup, logger_Error,
    emit, ret.
  cbn -[String.append decide].
  destruct (natssConn (sup st)) as [conn|]; cbn -[String.append decide].
  - destruct (Subscribe conn _ _ (world st)) as [[h|e] w]; cbn -[String.append decide];
      repeat (case_decide; cbn -[String.append decide]);
      split_and!; try done;
      by intros e' ->%list_elem_of_singleton.
  - split_and!; try done. intros e' He'. by apply elem_of_nil in He'.
Qed.

(** One turn of the loop over the desired subscribers. *)
Lemma UpdateSubscriptions_subscribers_cons (cRef : ChannelReference) (sub : SubscriberSpec)
    (subscribers : list SubscriberSpec) (activeSubs : gmap string bool)
    (failedToSubscribe : gmap SubscriberSpec error) (st : State W) :
  UpdateSubscriptions_subscribers cRef (sub :: subscribers) activeSubs failedToSubscribe st =
  match chMap_of cRef (sup st) !! UID sub with
  | Some _ =>
      UpdateSubscriptions_subscribers cRef subscribers
        (<[UID sub := true]> activeSubs) failedToSubscribe st
  | None =>
      let rs := subscribe cRef sub st in
      match value rs with
      | Err err =>
          let r := UpdateSubscriptions_subscribers cRef subscribers activeSubs
                     (<[sub := err]> failedToSubscribe) (after rs) in
          (value r, after r,
           events rs
           ++ EvLog ErrorLevel "failed to subscribe (subscription:%q) to channel: %v. Error:%s"
                    (Some err) :: events r)
      | Ok natssSub =>
          let r := UpdateSubscriptions_subscribers cRef subscribers
                     (<[UID sub := true]> activeSubs) failedToSubscribe
                     (mkState (world (after rs))
                        (set_subscriptions (alter (insert (UID sub) natssSub) cRef)
                                           (sup (after rs)))) in
          (value r, after r, events rs ++ events r)
      end
  end.
Proof.
  cbn -[String.append subscribe]. unfold bind at 1. cbn -[String.append subscribe].
  unfold newSubscriptionReference.
  destruct (chMap_of cRef (sup st) !! UID sub) as [h|].
  - destruct (UpdateSubscriptions_subscribers _ _ _ _ st) as [[a st1] t1]. done.
  - unfold bind, logger_Error, emit, modify_sup, value, after, events.
    destruct (subscribe cRef sub st) as [[[natssSub|err] st1] t1];
      cbn -[String.append].
    + by destruct (UpdateSubscriptions_subscribers _ _ _ _ _) as [[a st2] t2].
    + by destruct (UpdateSubscriptions_subscribers _ _ _ _ _) as [[a st2] t2].
Qed.

Lemma chMap_of_Some (s : subscriptionsSupervisor) (cRef : ChannelReference)
    (m : gmap string Handle) :
  subscriptions s !! cRef = Some m → chMap_of cRef s = m.
Proof. intros Hm. unfold chMap_of. by rewrite Hm. Qed.

(** The loop over the desired subscribers touches the registry at [cRef]
    only and only adds there; it marks active nothing but desired uids; a
    failure makes the failures map non-empty for good; when that map ends
    empty, every desired uid is registered and active. *)
Lemma subscribers_loop (cRef : ChannelReference) (subscribers : list SubscriberSpec) :
  ∀ (activeSubs : gmap string bool) (failedToSubscribe : gmap SubscriberSpec error)
    (st : State W) (m : gmap string Handle),
  subscriptions (sup st) !! cRef = Some m →
  let r := UpdateSubscriptions_subscribers cRef subscribers activeSubs
             failedToSubscribe st in
  ∃ m',
    subscriptions (sup (after r)) = <[cRef := m']> (subscriptions (sup st))
    ∧ (∀ k h, m !! k = Some h → m' !! k = Some h)
    ∧ unsubscribed (events r) = []
    ∧ (∀ k, activeSubs !! k = Some true → (value r).1 !! k = Some true)
    ∧ (∀ k, (value r).1 !! k = activeSubs !! k ∨ k ∈ UID <$> subscribers)
    ∧ (failedToSubscribe ≠ ∅ → (value r).2 ≠ ∅)
    ∧ ((value r).2 = ∅ →
       subscribe_failures (events r) = []
       ∧ ∀ sub, sub ∈ subscribers →
                is_Some (m' !! UID sub) ∧ (value r).1 !! UID sub = Some true)
    ∧ (∀ e, e ∈ subscribe_failures (events r) →
            ∃ msg, (msg, e) ∈ logged_errors (events r)).
Proof.
  induction subscribers as [|sub subscribers IH]; intros activeSubs failed st m Hm.
  { exists m. cbn. split_and!; try done.
    - by rewrite insert_id.
    - by left.
    - intros _. split; [done|]. intros sub Hsub. by apply elem_of_nil in Hsub.
    - intros e He. by apply elem_of_nil in He. }
  cbv zeta. rewrite UpdateSubscriptions_subscribers_cons, (chMap_of_Some _ _ m) by done.
  cbv zeta. destruct (m !! UID sub) as [h|] eqn:Hsub.
  { destruct (IH (<[UID sub := true]> activeSubs) failed st m Hm)
      as (m' & Hsubs & Hmono & Hun & Hact & Hdes & Hfail & Hnofail & Hlog).
    exists m'. split_and!; try done.
    - intros k Hk. apply Hact. rewrite lookup_insert. by case_decide.
    - intros k. destruct (Hdes k) as [Heq|Hin].
      + rewrite lookup_insert in Heq. case_decide as Hk.
        * subst k. right. rewrite fmap_cons. by left.
        * by left.
      + right. rewrite fmap_cons. by right.
    - intros Hempty. destruct (Hnofail Hempty) as [Hsf Hall]. split; [done|].
      intros sub' [->|Hin]%elem_of_cons; [|by apply Hall]. split.
      + rewrite (Hmono _ _ Hsub). by eexists.
      + apply Hact. by rewrite lookup_insert_eq. }
  destruct (subscribe_frame cRef sub st) as (Hframe & Hsun & _ & Hsres).
  cbv zeta in Hframe, Hsun, Hsres.
  destruct (value (subscribe cRef sub st)) as [natssSub|err] eqn:Hres.
  - assert (subscriptions (sup (mkState (world (after (subscribe cRef sub st)))
              (set_subscriptions (alter (insert (UID sub) natssSub) cRef)
                 (sup (after (subscribe cRef sub st)))))) !! cRef
            = Some (<[UID sub := natssSub]> m)) as Hm1.
    { unfold set_subscriptions. cbn [sup subscriptions].
      by rewrite lookup_alter_eq, Hframe, Hm. }
    destruct (IH (<[UID sub := true]> activeSubs) failed _ _ Hm1)
      as (m' & Hsubs & Hmono & Hun & Hact & Hdes & Hfail & Hnofail & Hlog).
    exists m'. cbn [value after events fst snd]. split_and!.
    + rewrite Hsubs. unfold set_subscriptions. cbn [sup subscriptions].
      by rewrite Hframe, insert_alter_eq.
    + intros k h Hk. apply Hmono. rewrite lookup_insert_ne; [done|]. congruence.
    + unfold unsubscribed in *. by rewrite omap_app, Hsun, Hun.
    + intros k Hk. apply Hact. rewrite lookup_insert. by case_decide.
    + intros k. destruct (Hdes k) as [Heq|Hin].
      * rewrite lookup_insert in Heq. case_decide as Hk.
        -- subst k. right. rewrite fmap_cons. by left.
        -- by left.
      * right. rewrite fmap_cons. by right.
    + done.
    + intros Hempty. destruct (Hnofail Hempty) as [Hsf Hall]. split.
      * unfold subscribe_failures in *. by rewrite omap_app, Hsres, Hsf.
      * intros sub' [->|Hin]%elem_of_cons; [|by apply Hall]. split.
        -- rewrite (Hmono (UID sub) natssSub); [by eexists|]. by rewrite lookup_insert_eq.
        -- apply Hact. by rewrite lookup_insert_eq.
    + intros e. unfold subscribe_failures, logged_errors in *.
      rewrite omap_app, Hsres, app_nil_l. intros He.
      destruct (Hlog e He) as [msg Hmsg]. exists msg.
      rewrite omap_app. apply elem_of_app. by right.
  - assert (subscriptions (sup (after (subscribe cRef sub st))) !! cRef = Some m) as Hm1
      by (by rewrite Hframe).
    assert (<[sub := err]> failed ≠ ∅) as Hne by apply insert_non_empty.
    destruct (IH activeSubs (<[sub := err]> failed) _ _ Hm1)
      as (m' & Hsubs & Hmono & Hun & Hact & Hdes & Hfail & Hnofail & Hlog).
    exists m'. cbn [value after events fst snd]. split_and!.
    + by rewrite Hsubs, Hframe.
    + done.
    + unfold unsubscribed in *. rewrite omap_app, Hsun. cbn -[String.append]. done.
    + done.
    + intros k. destruct (Hdes k) as [Heq|Hin]; [by left|].
      right. rewrite fmap_cons. by right.
    + intros _. by apply Hfail.
    + intros Hempty. by destruct (Hfail Hne).
    + intros e. unfold subscribe_failures, logged_errors in *.
      rewrite !omap_app. cbn -[String.append].
      intros [He|He]%elem_of_app.
      * apply Hsres in He as ->. eexists. apply elem_of_app. right. by left.
      * destruct (Hlog e He) as [msg Hmsg]. exists msg.
        apply elem_of_app. right. by right.
Qed.

(** *** [UpdateSubscriptions] as a whole *)

(** The teardown case. *)
Lemma UpdateSubscriptions_teardown (name ns : string) (subscribers : list SubscriberSpec)
    (isFinalizer : bool) (st : State W) :
  isFinalizer = true ∨ subscribers = [] →
  UpdateSubscriptions name ns subscribers isFinalizer st =
  match subscriptions (sup st) !! mkChannelReference ns name with
  | None => ((∅, None), st, [])
  | Some chMap =>
      let r := for_range (range_keys chMap)
                 (unsubscribe_logged (mkChannelReference ns name)) st in
      ((∅, None),
       mkState (world (after r))
         (set_subscriptions (delete (mkChannelReference ns name)) (sup (after r))),
       events r)
  end.
Proof.
  intros Hcase. unfold UpdateSubscriptions.
  assert (bool_decide (length subscribers = 0) || isFinalizer = true) as ->.
  { destruct Hcase as [->| ->]; [apply orb_true_r|done]. }
  unfold bind, get_sup, modify_sup, ret, after, events. cbn.
  destruct (subscriptions (sup st) !! mkChannelReference ns name) as [chMap|]; [|done].
  destruct (for_range _ _ st) as [[[] st1] t1]. cbn. by rewrite app_nil_r.
Qed.

(** The steady case. *)
Lemma UpdateSubscriptions_steady (name ns : string) (subscribers : list SubscriberSpec)
    (st : State W) :
  subscribers ≠ [] →
  UpdateSubscriptions name ns subscribers false st =
  let cRef := mkChannelReference ns name in
  let st0 := match subscriptions (sup st) !! cRef with
             | Some _ => st
             | None => mkState (world st) (set_subscriptions (insert cRef ∅) (sup st))
             end in
  let r1 := UpdateSubscriptions_subscribers cRef subscribers ∅ ∅ st0 in
  let r2 := for_range (range_keys (chMap_of cRef (sup (after r1))))
              (λ sub, if default false ((value r1).1 !! sub) then ret tt
                      else unsubscribe_logged cRef sub) (after r1) in
  let st3 := if bool_decide (size (chMap_of cRef (sup (after r2))) = 0)
             then mkState (world (after r2))
                          (set_subscriptions (delete cRef) (sup (after r2)))
             else after r2 in
  (((value r1).2, None), st3, events r1 ++ events r2).
Proof.
  intros Hne. unfold UpdateSubscriptions.
  assert (bool_decide (length subscribers = 0) || false = false) as ->.
  { rewrite orb_false_r. apply bool_decide_eq_false. by destruct subscribers. }
  unfold bind at 1 2. unfold get_sup at 1. cbn [fst snd].
  set (cRef := mkChannelReference ns name).
  set (st0 := match subscriptions (sup st) !! cRef with
              | Some _ => st
              | None => mkState (world st) (set_subscriptions (insert cRef ∅) (sup st))
              end).
  assert ((match subscriptions (sup st) !! cRef with
           | Some _ => ret ()
           | None => modify_sup (set_subscriptions <[cRef:=∅]>)
           end) st = (tt, st0, [])) as ->.
  { subst st0. by destruct (subscriptions (sup st) !! cRef). }
  unfold bind, get_sup, modify_sup, ret, value, after, events. cbn [fst snd].
  destruct (UpdateSubscriptions_subscribers cRef subscribers ∅ ∅ st0)
    as [[[activeSubs failed] st1] t1]. cbn [fst snd].
  destruct (for_range _ _ st1) as [[[] st2] t2]. cbn [fst snd].
  by destruct (bool_decide (size (chMap_of cRef (sup st2)) = 0)); cbn;
    rewrite ?app_nil_r.
Qed.

(** *** The visiting order *)

Lemma range_keys_NoDup (m : gmap string Handle) : NoDup (range_keys m).
Proof. rewrite range_keys_perm. apply NoDup_fst_map_to_list. Qed.

Lemma elem_of_range_keys (m : gmap string Handle) (k : string) :
  k ∈ range_keys m ↔ is_Some (m !! k).
Proof.
  rewrite range_keys_perm, list_elem_of_fmap. split.
  - intros ([k' h] & -> & Hin). apply elem_of_map_to_list in Hin. by eexists.
  - intros [h Hh]. exists (k, h). split; [done|]. by apply elem_of_map_to_list.
Qed.

(** Whatever the order, looking up the visited keys yields the handles of
    the map, each once. *)
Lemma range_keys_handles (m : gmap string Handle) :
  omap (λ k, m !! k) (range_keys m) ≡ₚ (map_to_list m).*2.
Proof.
  rewrite range_keys_perm.
  assert (∀ l : list (string * Handle),
    (∀ k h, (k, h) ∈ l → m !! k = Some h) → omap (λ k, m !! k) (l.*1) = l.*2) as Hl.
  { induction l as [|[k h] l IH]; intros Hin; [done|].
    cbn. rewrite (Hin k h) by left. f_equal. apply IH.
    intros k' h' Hin'. apply Hin. by right. }
  rewrite Hl; [done|]. intros k h. apply elem_of_map_to_list.
Qed.

(** *** The registry after a call

    A call touches the registry at its channel only: the key is gone, or it
    holds a non-empty map. *)
Lemma UpdateSubscriptions_registry (name ns : string) (subscribers : list SubscriberSpec)
    (isFinalizer : bool) (st : State W) :
  let cRef := mkChannelReference ns name in
  let r := UpdateSubscriptions name ns subscribers isFinalizer st in
  subscriptions (sup (after r)) = delete cRef (subscriptions (sup st))
  ∨ ∃ m', m' ≠ ∅
          ∧ subscriptions (sup (after r)) = <[cRef := m']> (subscriptions (sup st)).
Proof.
  intros cRef r. subst r.
  destruct (decide (isFinalizer = true ∨ subscribers = [])) as [Hcase|Hcase].
  - left. rewrite UpdateSubscriptions_teardown by done. fold cRef.
    destruct (subscriptions (sup st) !! cRef) as [chMap|] eqn:Hm.
    + destruct (unsubscribe_all cRef (range_keys chMap)
                  (range_keys_NoDup chMap) st chMap Hm) as (m' & Hsup & _).
      cbn [after fst snd sup]. cbv zeta in Hsup. rewrite Hsup.
      cbn. by rewrite delete_insert_eq.
    + cbn. by rewrite delete_id.
  - assert (isFinalizer = false) as -> by (destruct isFinalizer; tauto).
    assert (subscribers ≠ []) as Hne by tauto.
    rewrite UpdateSubscriptions_steady by done. fold cRef. cbv zeta.
    set (st0 := match subscriptions (sup st) !! cRef with
                | Some _ => st
                | None => mkState (world st) (set_subscriptions (insert cRef ∅) (sup st))
                end).
    assert (∃ m0, subscriptions (sup st0) !! cRef = Some m0
                  ∧ <[cRef := m0]> (subscriptions (sup st)) = subscriptions (sup st0))
      as (m0 & Hm0 & Hst0).
    { subst st0. destruct (subscriptions (sup st) !! cRef) as [m0|] eqn:Hm.
      - exists m0. split; [done|]. by rewrite insert_id.
      - exists ∅. cbn. split; [by rewrite lookup_insert_eq|done]. }
    destruct (subscribers_loop cRef subscribers ∅ ∅ st0 m0 Hm0) as (m1 & Hsubs1 & _).
    cbv zeta in Hsubs1.
    set (r1 := UpdateSubscriptions_subscribers cRef subscribers ∅ ∅ st0) in *.
    assert (subscriptions (sup (after r1)) !! cRef = Some m1) as Hm1
      by (by rewrite Hsubs1, lookup_insert_eq).
    rewrite (chMap_of_Some (sup (after r1)) cRef m1 Hm1).
    destruct (unsubscribe_loop cRef (λ sub, default false ((value r1).1 !! sub))
                (range_keys m1) (range_keys_NoDup m1) (after r1) m1 Hm1)
      as (m2 & Hsup2 & _).
    cbv zeta in Hsup2.
    set (r2 := for_range (range_keys m1) _ (after r1)) in *.
    assert (subscriptions (sup (after r2)) = <[cRef := m2]> (subscriptions (sup st)))
      as Hsubs2.
    { rewrite Hsup2. cbn. by rewrite Hsubs1, <-Hst0, !insert_insert_eq. }
    assert (chMap_of cRef (sup (after r2)) = m2) as ->.
    { apply chMap_of_Some. by rewrite Hsubs2, lookup_insert_eq. }
    cbn [after fst snd]. case_bool_decide as Hsize.
    + left. cbn. by rewrite Hsubs2, delete_insert_eq.
    + right. exists m2. split; [|done]. by apply map_size_non_empty_iff.
Qed.

Lemma unsubscribed_nil_failures (tr : list Event) :
  unsubscribed tr = [] → unsubscribe_failures tr = [].
Proof.
  unfold unsubscribed, unsubscribe_failures.
  induction tr as [|[] tr IH]; cbn; done.
Qed.

(** C10: whatever the arguments and the state, the second result of
    [UpdateSubscriptions] is nil; the error of every backend unsubscribe that
    failed is logged; the error of every backend subscribe that failed is
    logged and leaves the returned failures map non-empty. *)
Theorem UpdateSubscriptions_returns_nil_error (name ns : string)
    (subscribers : list SubscriberSpec) (isFinalizer : bool) (st : State W) :
  let r := UpdateSubscriptions name ns subscribers isFinalizer st in
  (value r).2 = None
  ∧ (∀ e, e ∈ unsubscribe_failures (events r) →
          ("unsubscribe", e) ∈ logged_errors (events r))
  ∧ (∀ e, e ∈ subscribe_failures (events r) →
          (value r).1 ≠ ∅ ∧ ∃ msg, (msg, e) ∈ logged_errors (events r)).
Proof.
  intros r. subst r. set (cRef := mkChannelReference ns name).
  destruct (decide (isFinalizer = true ∨ subscribers = [])) as [Hcase|Hcase].
  - rewrite UpdateSubscriptions_teardown by done. fold cRef.
    destruct (subscriptions (sup st) !! cRef) as [chMap|] eqn:Hm.
    + destruct (unsubscribe_all cRef (range_keys chMap)
                  (range_keys_NoDup chMap) st chMap Hm) as (m' & _ & _ & _ & Hsf & Hlog).
      cbv zeta in Hsf, Hlog. cbn [value events fst snd]. split_and!; [done|exact Hlog|].
      intros e He. rewrite Hsf in He. by apply elem_of_nil in He.
    + cbn. split_and!; [done|..]; intros e He; by apply elem_of_nil in He.
  - assert (isFinalizer = false) as -> by (destruct isFinalizer; tauto).
    assert (subscribers ≠ []) as Hne by tauto.
    rewrite UpdateSubscriptions_steady by done. fold cRef. cbv zeta.
    set (st0 := match subscriptions (sup st) !! cRef with
                | Some _ => st
                | None => mkState (world st) (set_subscriptions (insert cRef ∅) (sup st))
                end).
    assert (∃ m0, subscriptions (sup st0) !! cRef = Some m0) as (m0 & Hm0).
    { subst st0. destruct (subscriptions (sup st) !! cRef) as [m0|] eqn:Hm; [by eexists|].
      exists ∅. cbn. by rewrite lookup_insert_eq. }
    destruct (subscribers_loop cRef subscribers ∅ ∅ st0 m0 Hm0)
      as (m1 & Hsubs1 & _ & Hun1 & _ & _ & _ & Hnofail & Hlog1).
    cbv zeta in Hsubs1, Hun1, Hnofail, Hlog1.
    set (r1 := UpdateSubscriptions_subscribers cRef subscribers ∅ ∅ st0) in *.
    assert (subscriptions (sup (after r1)) !! cRef = Some m1) as Hm1
      by (by rewrite Hsubs1, lookup_insert_eq).
    rewrite (chMap_of_Some (sup (after r1)) cRef m1 Hm1).
    destruct (unsubscribe_loop cRef (λ sub, default false ((value r1).1 !! sub))
                (range_keys m1) (range_keys_NoDup m1) (after r1) m1 Hm1)
      as (m2 & _ & _ & _ & _ & Hsf2 & _ & Hlog2).
    cbv zeta in Hsf2, Hlog2.
    set (r2 := for_range (range_keys m1) _ (after r1)) in *.
    cbn [value events fst snd]. split_and!; [done|..].
    + intros e. unfold unsubscribe_failures, logged_errors in *.
      rewrite !omap_app. fold (unsubscribe_failures (events r1)).
      rewrite (unsubscribed_nil_failures _ Hun1), app_nil_l.
      intros He. apply elem_of_app. right. by apply Hlog2.
    + intros e. unfold subscribe_failures, logged_errors in *.
      rewrite !omap_app, Hsf2, app_nil_r. intros He. split.
      * intros Hempty. destruct (Hnofail Hempty) as [Hnone _].
        rewrite Hnone in He. by apply elem_of_nil in He.
      * destruct (Hlog1 e He) as [msg Hmsg]. exists msg. apply elem_of_app. by left.
Qed.

(** What the teardown case leaves and does. *)
Lemma UpdateSubscriptions_teardown_spec (name ns : string)
    (subscribers : list SubscriberSpec) (isFinalizer : bool) (st : State W) :
  isFinalizer = true ∨ subscribers = [] →
  let cRef := mkChannelReference ns name in
  let r := UpdateSubscriptions name ns subscribers isFinalizer st in
  subscriptions (sup (after r)) = delete cRef (subscriptions (sup st))
  ∧ subscriptions (sup (after r)) !! cRef = None
  ∧ unsubscribed (events r) ≡ₚ (map_to_list (chMap_of cRef (sup st))).*2
  ∧ subscribed (events r) = []
  ∧ value r = (∅, None)
  ∧ (subscriptions (sup st) !! cRef = None → r = ((∅, None), st, [])).
Proof.
  intros Hcase cRef r. subst r.
  rewrite UpdateSubscriptions_teardown by done. fold cRef. unfold chMap_of.
  destruct (subscriptions (sup st) !! cRef) as [chMap|] eqn:Hm.
  - destruct (unsubscribe_all cRef (range_keys chMap)
                (range_keys_NoDup chMap) st chMap Hm) as (m' & Hsup & Hun & Hsub & _).
    cbv zeta in Hsup, Hun, Hsub. cbn [value after events fst snd sup default].
    rewrite Hsup. cbn [set_subscriptions subscriptions].
    rewrite delete_insert_eq, lookup_delete_eq, Hun.
    split_and!; [done|done|apply range_keys_handles|done|done|done].
  - cbn [value after events fst snd default].
    rewrite delete_id, map_to_list_empty by done.
    split_and!; done.
Qed.

(** C5: after [UpdateSubscriptions] with [isFinalizer] set or with no
    subscriber, the channel's key is gone from the registry and the other
    keys are untouched; the backend's [Unsubscribe] was called once on each
    handle the channel held, in some order, and on nothing else; no
    subscribe was made; the result is the empty failures map and a nil
    error; and when the channel had no entry the call changes nothing and
    produces no event. *)
Theorem UpdateSubscriptions_teardown_unsubscribes_all (name ns : string)
    (subscribers : list SubscriberSpec) (isFinalizer : bool) (st : State W) :
  isFinalizer = true ∨ subscribers = [] →
  let cRef := mkChannelReference ns name in
  let r := UpdateSubscriptions name ns subscribers isFinalizer st in
  subscriptions (sup (after r)) = delete cRef (subscriptions (sup st))
  ∧ subscriptions (sup (after r)) !! cRef = None
  ∧ unsubscribed (events r) ≡ₚ (map_to_list (chMap_of cRef (sup st))).*2
  ∧ subscribed (events r) = []
  ∧ value r = (∅, None)
  ∧ (subscriptions (sup st) !! cRef = None → r = ((∅, None), st, [])).
Proof. apply UpdateSubscriptions_teardown_spec. Qed.

(** *** The invariant of the registry *)

Lemma UpdateSubscriptions_nonempty (name ns : string) (subscribers : list SubscriberSpec)
    (isFinalizer : bool) (st : State W) :
  registry_nonempty (subscriptions (sup st)) →
  registry_nonempty
    (subscriptions (sup (after (UpdateSubscriptions name ns subscribers isFinalizer st)))).
Proof.
  intros Hinv c m.
  destruct (UpdateSubscriptions_registry name ns subscribers isFinalizer st)
    as [->|(m' & Hm' & ->)].
  - intros [_ Hc]%lookup_delete_Some. by eapply Hinv.
  - intros [[_ <-]|[_ Hc]]%lookup_insert_Some; [done|]. by eapply Hinv.
Qed.

Lemma run_nonempty (cs : list Step) :
  ∀ st : State W,
  registry_nonempty (subscriptions (sup st)) →
  registry_nonempty (subscriptions (sup (after (run cs st)))).
Proof.
  unfold run. induction cs as [|c cs IH]; intros st Hinv; [done|].
  cbn [for_range]. rewrite after_bind. apply IH.
  destruct c as [name ns subscribers isFinalizer|nConn]; cbn [run_step].
  - rewrite after_bind. by apply UpdateSubscriptions_nonempty.
  - done.
Qed.

(** C8: start from a supervisor with an empty registry and run reconciler
    calls, whatever the backend answers and with the connection replaced at
    any point between them: after each call, every channel key present in
    the registry has a non-empty inner map. *)
Theorem registry_inner_maps_nonempty (cs : list Step) (n : nat) (st : State W) :
  subscriptions (sup st) = ∅ →
  registry_nonempty (subscriptions (sup (after (run (take n cs) st)))).
Proof.
  intros Hempty. apply run_nonempty. rewrite Hempty. intros c m Hc.
  by rewrite lookup_empty in Hc.
Qed.

(** *** Reconciling twice *)

(** A loop whose keys are all skipped does nothing. *)
Lemma unsubscribe_loop_skip_all (cRef : ChannelReference) (skip : string → bool)
    (ks : list string) (st : State W) :
  (∀ k, k ∈ ks → skip k = true) →
  for_range ks (λ sub, if skip sub then ret tt else unsubscribe_logged cRef sub) st
  = (tt, st, []).
Proof.
  induction ks as [|k ks IH]; intros Hskip; [done|].
  cbn [for_range]. unfold bind. rewrite (Hskip k) by left. cbn.
  rewrite IH; [done|]. intros k' Hk'. apply Hskip. by right.
Qed.

(** When every desired uid is registered, the loop over the desired
    subscribers subscribes nothing and marks each of them active. *)
Lemma subscribers_loop_registered (cRef : ChannelReference)
    (subscribers : list SubscriberSpec) :
  ∀ (activeSubs : gmap string bool) (failedToSubscribe : gmap SubscriberSpec error)
    (st : State W) (m : gmap string Handle),
  subscriptions (sup st) !! cRef = Some m →
  (∀ sub, sub ∈ subscribers → is_Some (m !! UID sub)) →
  let r := UpdateSubscriptions_subscribers cRef subscribers activeSubs
             failedToSubscribe st in
  after r = st ∧ events r = [] ∧ (value r).2 = failedToSubscribe
  ∧ (∀ k, activeSubs !! k = Some true → (value r).1 !! k = Some true)
  ∧ (∀ sub, sub ∈ subscribers → (value r).1 !! UID sub = Some true).
Proof.
  induction subscribers as [|sub subscribers IH]; intros activeSubs failed st m Hm Hall.
  { cbn. split_and!; try done. intros sub Hsub. by apply elem_of_nil in Hsub. }
  cbv zeta. rewrite UpdateSubscriptions_subscribers_cons, (chMap_of_Some _ _ m) by done.
  destruct (Hall sub) as [h ->]; [by left|].
  destruct (IH (<[UID sub := true]> activeSubs) failed st m Hm)
    as (Hafter & Hevents & Hfailed & Hmono & Hact).
  { intros sub' Hsub'. apply Hall. by right. }
  split_and!; [done..| |].
  - intros k Hk. apply Hmono. rewrite lookup_insert. by case_decide.
  - intros sub' [->|Hsub']%elem_of_cons; [|by apply Hact].
    apply Hmono. by rewrite lookup_insert_eq.
Qed.

(** A call in the steady case on a channel that holds exactly the desired
    uids changes nothing and produces no event. *)
Lemma UpdateSubscriptions_settled (name ns : string) (subscribers : list SubscriberSpec)
    (st : State W) (m : gmap string Handle) :
  subscribers ≠ [] →
  subscriptions (sup st) !! mkChannelReference ns name = Some m →
  (∀ sub, sub ∈ subscribers → is_Some (m !! UID sub)) →
  (∀ k, is_Some (m !! k) → k ∈ UID <$> subscribers) →
  UpdateSubscriptions name ns subscribers false st = ((∅, None), st, []).
Proof.
  intros Hne Hm Hall Honly.
  rewrite UpdateSubscriptions_steady by done. cbv zeta. rewrite Hm.
  destruct (subscribers_loop_registered (mkChannelReference ns name) subscribers
              ∅ ∅ st m Hm Hall) as (Hafter & Hevents & Hfailed & _ & Hact).
  cbv zeta in Hafter, Hevents, Hfailed, Hact.
  rewrite Hafter, Hevents, Hfailed, (chMap_of_Some _ _ m Hm).
  rewrite unsubscribe_loop_skip_all.
  - cbn [after events fst snd]. rewrite (chMap_of_Some _ _ m Hm).
    rewrite bool_decide_eq_false_2; [done|].
    destruct subscribers as [|sub ?]; [done|].
    apply (map_size_ne_0_lookup_2 _ (UID sub)), Hall. by left.
  - intros k [sub [-> Hsub]]%elem_of_range_keys%Honly%list_elem_of_fmap.
    by rewrite (Hact sub Hsub).
Qed.

(** A call in the steady case that returns no failure and whose
    unsubscribes all succeed leaves the channel with exactly the desired
    uids. *)
Lemma UpdateSubscriptions_settles (name ns : string) (subscribers : list SubscriberSpec)
    (st : State W) :
  subscribers ≠ [] →
  let r := UpdateSubscriptions name ns subscribers false st in
  (value r).1 = ∅ → unsubscribe_failures (events r) = [] →
  ∃ m, subscriptions (sup (after r)) !! mkChannelReference ns name = Some m
       ∧ (∀ sub, sub ∈ subscribers → is_Some (m !! UID sub))
       ∧ (∀ k, is_Some (m !! k) → k ∈ UID <$> subscribers).
Proof.
  intros Hne r. subst r. rewrite UpdateSubscriptions_steady by done.
  set (cRef := mkChannelReference ns name). cbv zeta.
  set (st0 := match subscriptions (sup st) !! cRef with
              | Some _ => st
              | None => mkState (world st) (set_subscriptions (insert cRef ∅) (sup st))
              end).
  assert (∃ m0, subscriptions (sup st0) !! cRef = Some m0) as (m0 & Hm0).
  { subst st0. destruct (subscriptions (sup st) !! cRef) as [m0|] eqn:Hm; [by eexists|].
    exists ∅. cbn. by rewrite lookup_insert_eq. }
  destruct (subscribers_loop cRef subscribers ∅ ∅ st0 m0 Hm0)
    as (m1 & Hsubs1 & _ & _ & _ & Hdes & _ & Hnofail & _).
  cbv zeta in Hsubs1, Hdes, Hnofail.
  set (r1 := UpdateSubscriptions_subscribers cRef subscribers ∅ ∅ st0) in *.
  assert (subscriptions (sup (after r1)) !! cRef = Some m1) as Hm1
    by (by rewrite Hsubs1, lookup_insert_eq).
  rewrite (chMap_of_Some (sup (after r1)) cRef m1 Hm1).
  destruct (unsubscribe_loop cRef (λ sub, default false ((value r1).1 !! sub))
              (range_keys m1) (range_keys_NoDup m1) (after r1) m1 Hm1)
    as (m2 & Hsup2 & Hm2 & _ & _ & _ & Hgone & _).
  cbv zeta in Hsup2, Hm2, Hgone.
  set (r2 := for_range (range_keys m1) _ (after r1)) in *.
  cbn [value after events fst snd]. intros Hempty Hnf.
  destruct (Hnofail Hempty) as [_ Hall].
  assert (unsubscribe_failures (events r2) = []) as Hnf2.
  { unfold unsubscribe_failures in *. rewrite omap_app in Hnf.
    by apply app_eq_nil in Hnf as [_ ?]. }
  specialize (Hgone Hnf2).
  assert (subscriptions (sup (after r2)) !! cRef = Some m2) as Hlk2.
  { rewrite Hsup2. cbn. by rewrite lookup_insert_eq. }
  assert (∀ sub, sub ∈ subscribers → is_Some (m2 !! UID sub)) as Hall2.
  { intros sub Hsub. destruct (Hall sub Hsub) as [Hreg Hact].
    destruct (Hm2 (UID sub)) as [->|(_ & _ & Hskip)]; [done|].
    cbv beta in Hskip. by rewrite Hact in Hskip. }
  rewrite (chMap_of_Some _ _ m2 Hlk2).
  rewrite bool_decide_eq_false_2.
  2:{ destruct subscribers as [|sub ?]; [done|].
      apply (map_size_ne_0_lookup_2 _ (UID sub)), Hall2. by left. }
  exists m2. split_and!; [done|done|].
  intros k Hk.
  assert (m2 !! k = m1 !! k) as Heq.
  { destruct (Hm2 k) as [?|(Hnone & _)]; [done|]. rewrite Hnone in Hk. by destruct Hk. }
  assert (k ∈ range_keys m1) as Hin by (apply elem_of_range_keys; by rewrite <-Heq).
  destruct (default false ((value r1).1 !! k)) eqn:Hskip.
  - destruct (Hdes k) as [Hk0|?]; [|done].
    rewrite Hk0, lookup_empty in Hskip. done.
  - rewrite (Hgone k Hin Hskip) in Hk. by destruct Hk.
Qed.

(** C1, as amended: when a first call with [isFinalizer] false returns an
    empty failures map and every backend unsubscribe it made succeeded, a
    second call with the same arguments leaves the registry, and the whole
    state, as the first call left it, and makes no backend subscribe and no
    backend unsubscribe: it produces no event at all. *)
Theorem UpdateSubscriptions_idempotent (name ns : string)
    (subscribers : list SubscriberSpec) (st : State W) :
  let r1 := UpdateSubscriptions name ns subscribers false st in
  (value r1).1 = ∅ →
  unsubscribe_failures (events r1) = [] →
  let r2 := UpdateSubscriptions name ns subscribers false (after r1) in
  subscriptions (sup (after r2)) = subscriptions (sup (after r1))
  ∧ subscribed (events r2) = []
  ∧ unsubscribed (events r2) = []
  ∧ r2 = ((∅, None), after r1, []).
Proof.
  intros r1 Hempty Hnf r2.
  assert (r2 = ((∅, None), after r1, [])) as ->; [|done].
  subst r1 r2. destruct (decide (subscribers = [])) as [->|Hne].
  - destruct (UpdateSubscriptions_teardown_spec name ns [] false st)
      as (_ & Hgone & _); [by right|].
    cbv zeta in Hgone.
    rewrite (UpdateSubscriptions_teardown _ _ _ _ (after _)) by (by right).
    by rewrite Hgone.
  - destruct (UpdateSubscriptions_settles name ns subscribers st Hne Hempty Hnf)
      as (m & Hm & Hall & Honly).
    by apply (UpdateSubscriptions_settled _ _ _ _ m).
Qed.

End Registry.

(** ** Scenarios

    The theorems at work on the stub, and the inputs on which two sentences
    of the specification fail. *)

(** Scenario 2: one subscribe, durable name [u1] on subject [c1.n1]; the same
    call again does nothing. *)
Lemma UpdateSubscriptions_idempotent_witness :
  let st := mkState healthy (supervisor_with ∅) in
  let r1 := UpdateSubscriptions "c1" "n1" [subscriber "u1" "http://s1/"] false st in
  let r2 := UpdateSubscriptions "c1" "n1" [subscriber "u1" "http://s1/"] false (after r1) in
  (value r1).1 = ∅
  ∧ unsubscribe_failures (events r1) = []
  ∧ subscribed (events r1) = [("c1.n1", "u1")]
  ∧ handle_at c1_n1 "u1" (sup (after r1)) = Some 1
  ∧ r2 = ((∅, None), after r1, []).
Proof.
  intros st r1 r2.
  assert ((value r1).1 = ∅) as Hempty by (vm_compute; reflexivity).
  assert (unsubscribe_failures (events r1) = []) as Hnf by (vm_compute; reflexivity).
  split_and!; [exact Hempty|exact Hnf|vm_compute; reflexivity..|].
  apply (UpdateSubscriptions_idempotent "c1" "n1" _ st Hempty Hnf).
Defined.

(** C1 as stated fails: the channel holds [u1], the desired set is [u2], and
    the backend refuses the first unsubscribe.  The first call returns no
    failure and keeps [u1]; the second call, with the same arguments, calls
    the backend's [Unsubscribe] on the handle of [u1] and removes the entry. *)
Lemma UpdateSubscriptions_not_idempotent :
  let st := mkState flaky (supervisor_with registry_u1) in
  let r1 := UpdateSubscriptions "c1" "n1" [subscriber "u2" "http://s2/"] false st in
  let r2 := UpdateSubscriptions "c1" "n1" [subscriber "u2" "http://s2/"] false (after r1) in
  (value r1).1 = ∅
  ∧ handle_at c1_n1 "u1" (sup (after r1)) = Some 1
  ∧ unsubscribed (events r2) = [1]
  ∧ handle_at c1_n1 "u1" (sup (after r2)) = None
  ∧ subscriptions (sup (after r2)) ≠ subscriptions (sup (after r1)).
Proof.
  intros st r1 r2.
  assert (handle_at c1_n1 "u1" (sup (after r1)) = Some 1) as H1 by (vm_compute; reflexivity).
  assert (handle_at c1_n1 "u1" (sup (after r2)) = None) as H2 by (vm_compute; reflexivity).
  split_and!; [vm_compute; reflexivity|exact H1|vm_compute; reflexivity|exact H2|].
  intros Heq. unfold handle_at in H1, H2. rewrite Heq in H2. congruence.
Qed.

Lemma unsubscribe_removes_on_success_witness :
  let st := mkState healthy (supervisor_with registry_u1) in
  let r := unsubscribe c1_n1 "u1" st in
  handle_at c1_n1 "u1" (sup st) = Some 1
  ∧ unsubscribed (events r) = [1]
  ∧ value r = None
  ∧ handle_at c1_n1 "u1" (sup (after r)) = None.
Proof.
  intros st r.
  assert (handle_at c1_n1 "u1" (sup st) = Some 1) as Hh by (vm_compute; reflexivity).
  destruct (unsubscribe_removes_on_success c1_n1 "u1" st 1 Hh)
    as (Hun & Hval & _ & Hok & _).
  split_and!; [exact Hh|exact Hun|exact Hval|].
  apply Hok. exact Hval.
Defined.

(** C2 as stated fails: when the backend's [Unsubscribe] returns an error,
    [unsubscribe] returns it and the entry is still in the registry. *)
Lemma unsubscribe_keeps_entry_on_error :
  let st := mkState flaky (supervisor_with registry_u1) in
  let r := unsubscribe c1_n1 "u1" st in
  handle_at c1_n1 "u1" (sup st) = Some 1
  ∧ unsubscribed (events r) = [1]
  ∧ value r = Some (errors_New "stan: invalid subscription")
  ∧ handle_at c1_n1 "u1" (sup (after r)) = Some 1.
Proof. intros st r. split_and!; vm_compute; reflexivity. Qed.

(** C4: the code does not keep the acknowledgement for the successful
    delivery.  The callback hands [DispatchMessage] the message built over the
    backend message in manual-ack mode (lines 298 and 323), and a dispatcher
    that finishes that message acknowledges the backend message.  Scenario 4
    with such a dispatcher: the delivery that fails is acknowledged once,
    where the return of lines 324 to 327 is there to leave it unacknowledged,
    and the delivery that succeeds is acknowledged twice, by the dispatcher
    and by line 331; a message that cannot be built is not acknowledged.  With
    a dispatcher that leaves the message alone the failed delivery is not
    acknowledged and the successful one is acknowledged once. *)
Theorem mcb_acknowledges_failed_dispatch :
  let msg := mkMsg 1 "c1.n1" "event" in
  let sub := subscriber "u2" "http://s2/" in
  let failing := mkStub 1 None 0 None None (Returned "event")
                   (Failed (errors_New "unexpected HTTP response 500")) (Returned tt) in
  let broken := mkStub 1 None 0 None None (Panicked "nil message")
                   (Returned tt) (Returned tt) in
  count_Ack (events (@mcb Stub (finishing Stub_External) c1_n1 sub msg
                       (mkState failing (supervisor_with ∅)))) = 1
  ∧ count_Ack (events (@mcb Stub (finishing Stub_External) c1_n1 sub msg
                         (mkState healthy (supervisor_with ∅)))) = 2
  ∧ count_Ack (events (@mcb Stub (finishing Stub_External) c1_n1 sub msg
                         (mkState broken (supervisor_with ∅)))) = 0
  ∧ count_Ack (events (@mcb Stub Stub_External c1_n1 sub msg
                         (mkState failing (supervisor_with ∅)))) = 0
  ∧ count_Ack (events (@mcb Stub Stub_External c1_n1 sub msg
                         (mkState healthy (supervisor_with ∅)))) = 1.
Proof.
  intros msg sub failing broken. split_and!.
  - exact (mcb_count_Ack (External0 := finishing Stub_External) c1_n1 sub msg
             (mkState failing (supervisor_with ∅))).
  - exact (mcb_count_Ack (External0 := finishing Stub_External) c1_n1 sub msg
             (mkState healthy (supervisor_with ∅))).
  - exact (mcb_count_Ack (External0 := finishing Stub_External) c1_n1 sub msg
             (mkState broken (supervisor_with ∅))).
  - exact (mcb_count_Ack c1_n1 sub msg (mkState failing (supervisor_with ∅))).
  - exact (mcb_count_Ack c1_n1 sub msg (mkState healthy (supervisor_with ∅))).
Qed.

(** A finalizer on the channel of [registry_u1]: one unsubscribe, of handle 1,
    and the key is gone. *)
Lemma UpdateSubscriptions_teardown_unsubscribes_all_witness :
  let st := mkState flaky (supervisor_with registry_u1) in
  let r := UpdateSubscriptions "c1" "n1" [subscriber "u1" "http://s1/"] true st in
  subscriptions (sup (after r)) !! c1_n1 = None
  ∧ unsubscribed (events r) ≡ₚ [1]
  ∧ subscribed (events r) = []
  ∧ value r = (∅, None).
Proof.
  intros st r.
  destruct (UpdateSubscriptions_teardown_unsubscribes_all "c1" "n1"
              [subscriber "u1" "http://s1/"] true st (or_introl eq_refl))
    as (_ & Hgone & Hun & Hsub & Hval & _).
  split_and!; [exact Hgone| |exact Hsub|exact Hval].
  etrans; [exact Hun|]. vm_compute. reflexivity.
Defined.

(** Scenario 5: the backend reports the connection closed on publish and on
    subscribe. *)
Lemma connection_closed_signals_reconnect_witness :
  let st := mkState closed (supervisor_with ∅) in
  let sub := subscriber "u1" "http://s1/" in
  natssConn (sup st) = Some 7
  ∧ count_signalReconnect (events (messageReceiverFunc c1_n1 "event" st)) = 1
  ∧ (∃ errMsg, value (messageReceiverFunc c1_n1 "event" st)
               = Some (errors_Wrap ErrConnectionClosed errMsg))
  ∧ count_signalReconnect (events (subscribe c1_n1 sub st)) = 1
  ∧ value (subscribe c1_n1 sub st) = Err ErrConnectionClosed.
Proof.
  intros st sub.
  destruct (connection_closed_signals_reconnect c1_n1 "event" sub st 7
              ErrConnectionClosed closed closed eq_refl) as [Hpub Hsub].
  destruct (Hpub eq_refl eq_refl) as (Hp1 & Hp2 & _).
  destruct (Hsub eq_refl) as (Hs1 & Hs2).
  split_and!; [reflexivity|exact Hp1|exact Hp2|exact Hs1|exact Hs2].
Defined.

(** Scenarios 2 and 3 one after the other, then a finalizer, on a backend
    whose first unsubscribe fails. *)
Lemma registry_inner_maps_nonempty_witness :
  let st := mkState flaky (supervisor_with ∅) in
  let cs := [StepUpdateSubscriptions "c1" "n1" [subscriber "u1" "http://s1/"] false;
             StepConnected 8;
             StepUpdateSubscriptions "c1" "n1" [subscriber "u2" "http://s2/"] false;
             StepUpdateSubscriptions "c1" "n1" [] true] in
  subscriptions (sup st) = ∅
  ∧ registry_nonempty (subscriptions (sup (after (run (take 3 cs) st))))
  ∧ is_Some (subscriptions (sup (after (run (take 3 cs) st))) !! c1_n1).
Proof.
  intros st cs. split_and!; [reflexivity| |vm_compute; by eexists].
  apply (registry_inner_maps_nonempty cs 3 st). reflexivity.
Defined.

(** Scenario 1: a publish for [c1] of [n1] goes to subject [c1.n1]; scenario
    2: so does the subscribe. *)
Lemma subject_name_dot_namespace_witness :
  let st := mkState healthy (supervisor_with ∅) in
  let sub := subscriber "u1" "http://s1/" in
  getSubject c1_n1 = "c1.n1"
  ∧ value (messageReceiverFunc c1_n1 "event" st) = None
  ∧ published (events (messageReceiverFunc c1_n1 "event" st)) = ["c1.n1"]
  ∧ value (subscribe c1_n1 sub st) = Ok 1
  ∧ subscribed (events (subscribe c1_n1 sub st)) = [("c1.n1", "u1")].
Proof.
  intros st sub.
  destruct (subject_name_dot_namespace c1_n1 "event" sub st)
    as (Hsubject & _ & _ & Hpub & Hsub).
  split_and!; [exact Hsubject|reflexivity|exact (Hpub eq_refl)|reflexivity|].
  exact (Hsub 1 eq_refl).
Defined.

(** A reconcile in which the unsubscribe of [u1] fails and one in which the
    subscribe of [u1] fails: nil error both times, the failures logged, the
    second one in the failures map. *)
Lemma UpdateSubscriptions_returns_nil_error_witness :
  let r1 := UpdateSubscriptions "c1" "n1" [subscriber "u2" "http://s2/"] false
              (mkState flaky (supervisor_with registry_u1)) in
  let r2 := UpdateSubscriptions "c1" "n1" [subscriber "u1" "http://s1/"] false
              (mkState closed (supervisor_with ∅)) in
  (value r1).2 = None
  ∧ ("unsubscribe", errors_New "stan: invalid subscription") ∈ logged_errors (events r1)
  ∧ (value r2).2 = None
  ∧ (value r2).1 ≠ ∅.
Proof.
  intros r1 r2.
  destruct (UpdateSubscriptions_returns_nil_error "c1" "n1"
              [subscriber "u2" "http://s2/"] false
              (mkState flaky (supervisor_with registry_u1))) as (Hnil1 & Hun & _).
  destruct (UpdateSubscriptions_returns_nil_error "c1" "n1"
              [subscriber "u1" "http://s1/"] false
              (mkState closed (supervisor_with ∅))) as (Hnil2 & _ & Hsub).
  split_and!; [exact Hnil1| |exact Hnil2|].
  - apply Hun. vm_compute. left.
  - apply (Hsub ErrConnectionClosed). vm_compute. left.
Defined.

(** * Further properties of the code *)

(** ** The router: what a rebuild installs *)

Lemma newHostNameToChannelRefMap_distinct (cList : list Channel) :
  NoDup (Status_Address_URL_Host <$> cList) →
  ∃ m, newHostNameToChannelRefMap cList = Ok m.
Proof.
  intros Hnd. unfold newHostNameToChannelRefMap.
  pose proof (newHostNameToChannelRefMap_from_spec cList [] ∅ holds_empty) as Hspec.
  destruct (newHostNameToChannelRefMap_from ∅ cList) as [m|e]; [by exists m|].
  destruct Hspec as (a & b & Hdup & _).
  by apply declare_same_host_not_NoDup in Hdup.
Qed.

Lemma newHostNameToChannelRefMap_from_size (cList : list Channel) :
  ∀ m0 m, newHostNameToChannelRefMap_from m0 cList = Ok m →
          size m = size m0 + length cList.
Proof.
  induction cList as [|c cList IH]; intros m0 m; simpl.
  - intros [= <-]. lia.
  - destruct (m0 !! Status_Address_URL_Host c) eqn:Hfresh; [done|].
    intros Hm%IH. rewrite Hm, map_size_insert_None by done. lia.
Qed.

(** X1: after a successful [ProcessChannels], the host of every channel of the
    list resolves to that channel's reference with a nil error, and a host no
    channel of the list declares resolves to the zero reference with an
    error, whatever was installed before. *)
Theorem ProcessChannels_then_lookup (s : subscriptionsSupervisor) (chanList : list Channel) :
  (ProcessChannels chanList s).1 = None →
  (∀ c, c ∈ chanList →
        getChannelReferenceFromHost (ProcessChannels chanList s).2
          (Status_Address_URL_Host c) = (reference_of c, None))
  ∧ (∀ host, (∀ c, c ∈ chanList → Status_Address_URL_Host c ≠ host) →
             ∃ err, getChannelReferenceFromHost (ProcessChannels chanList s).2 host
                    = (mkChannelReference EmptyString EmptyString, Some err)).
Proof.
  unfold ProcessChannels.
  destruct (newHostNameToChannelRefMap chanList) as [m|e] eqn:Hbuild; [|done].
  intros _. apply newHostNameToChannelRefMap_Ok in Hbuild as [Hm _].
  unfold getChannelReferenceFromHost. cbn -[String.append]. split.
  - intros c Hc.
    assert (m !! Status_Address_URL_Host c = Some (reference_of c)) as ->; [|done].
    apply Hm. by exists c.
  - intros host Hhost. destruct (m !! host) as [cr|] eqn:Hlk; [|by eexists].
    apply Hm in Hlk as (c & Hc & Heq & _). by destruct (Hhost c Hc).
Qed.

Lemma ProcessChannels_then_lookup_witness :
  let s := (ProcessChannels [mkChannel "n0" "c0" "h0"] (NewNatssDispatcher 1 1)).2 in
  let chanList := [mkChannel "n1" "c1" "h1"; mkChannel "n2" "c2" "h2"] in
  (ProcessChannels chanList s).1 = None
  ∧ getChannelReferenceFromHost (ProcessChannels chanList s).2 "h2"
    = (mkChannelReference "n2" "c2", None)
  ∧ ∃ err, getChannelReferenceFromHost (ProcessChannels chanList s).2 "h0"
           = (mkChannelReference EmptyString EmptyString, Some err).
Proof.
  intros s chanList.
  assert ((ProcessChannels chanList s).1 = None) as Hok by reflexivity.
  destruct (ProcessChannels_then_lookup s chanList Hok) as [Hhit Hmiss].
  split_and!; [exact Hok| |].
  - apply (Hhit (mkChannel "n2" "c2" "h2")). right; left.
  - apply Hmiss. intros c Hc.
    repeat (apply elem_of_cons in Hc as [->|Hc]; [discriminate|]).
    by apply elem_of_nil in Hc.
Defined.

(** X2: [ProcessChannels] accepts a list exactly when the hosts of its
    channels are pairwise distinct. *)
Theorem ProcessChannels_accepts_distinct_hosts (s : subscriptionsSupervisor)
    (chanList : list Channel) :
  (ProcessChannels chanList s).1 = None ↔ NoDup (Status_Address_URL_Host <$> chanList).
Proof.
  unfold ProcessChannels. split.
  - destruct (newHostNameToChannelRefMap chanList) as [m|e] eqn:Hbuild; [|done].
    intros _. by apply newHostNameToChannelRefMap_Ok in Hbuild as [_ ?].
  - intros [m ->]%newHostNameToChannelRefMap_distinct. done.
Qed.

Lemma ProcessChannels_accepts_distinct_hosts_witness :
  let chanList := [mkChannel "n1" "c1" "h1"; mkChannel "n1" "c1" "h2"] in
  NoDup (Status_Address_URL_Host <$> chanList)
  ∧ (ProcessChannels chanList (NewNatssDispatcher 1 1)).1 = None.
Proof.
  intros chanList.
  assert (NoDup (Status_Address_URL_Host <$> chanList)) as Hnd
    by (apply (bool_decide_unpack _); vm_compute; exact I).
  split; [exact Hnd|].
  by apply (ProcessChannels_accepts_distinct_hosts (NewNatssDispatcher 1 1) chanList).
Defined.

(** X3: the order of the channel list does not matter to a rebuild that
    succeeds: every reordering of the list is accepted too and installs the
    same map. *)
Theorem ProcessChannels_order_irrelevant (s : subscriptionsSupervisor)
    (chanList chanList' : list Channel) :
  chanList ≡ₚ chanList' →
  (ProcessChannels chanList s).1 = None →
  ProcessChannels chanList' s = ProcessChannels chanList s.
Proof.
  intros Hperm. unfold ProcessChannels.
  destruct (newHostNameToChannelRefMap chanList) as [m|e] eqn:Hbuild; [|done].
  intros _. apply newHostNameToChannelRefMap_Ok in Hbuild as [Hm Hnd].
  destruct (newHostNameToChannelRefMap_distinct chanList') as [m' Hbuild'].
  { by rewrite <-Hperm. }
  rewrite Hbuild'. apply newHostNameToChannelRefMap_Ok in Hbuild' as [Hm' _].
  assert (m' = m) as ->; [|done].
  apply map_eq. intros h. apply option_eq. intros cr.
  rewrite (Hm h cr), (Hm' h cr). by setoid_rewrite Hperm.
Qed.

Lemma ProcessChannels_order_irrelevant_witness :
  let s := NewNatssDispatcher 1 1 in
  let a := mkChannel "n1" "c1" "h1" in
  let b := mkChannel "n2" "c2" "h2" in
  [a; b] ≡ₚ [b; a]
  ∧ (ProcessChannels [a; b] s).1 = None
  ∧ ProcessChannels [b; a] s = ProcessChannels [a; b] s.
Proof.
  intros s a b.
  assert ([a; b] ≡ₚ [b; a]) as Hperm by apply Permutation_swap.
  assert ((ProcessChannels [a; b] s).1 = None) as Hok by reflexivity.
  split_and!; [exact Hperm|exact Hok|].
  exact (ProcessChannels_order_irrelevant s _ _ Hperm Hok).
Defined.

(** X4: a successful rebuild installs one entry per channel of the list. *)
Theorem ProcessChannels_installs_one_entry_per_channel (s : subscriptionsSupervisor)
    (chanList : list Channel) :
  (ProcessChannels chanList s).1 = None →
  size (getHostToChannelMap (ProcessChannels chanList s).2) = length chanList.
Proof.
  unfold ProcessChannels, newHostNameToChannelRefMap.
  destruct (newHostNameToChannelRefMap_from ∅ chanList) as [m|e] eqn:Hbuild; [|done].
  intros _. apply newHostNameToChannelRefMap_from_size in Hbuild.
  cbn. by rewrite Hbuild, map_size_empty.
Qed.

Lemma ProcessChannels_installs_one_entry_per_channel_witness :
  let chanList := [mkChannel "n1" "c1" "h1"; mkChannel "n2" "c2" "h2"] in
  (ProcessChannels chanList (NewNatssDispatcher 1 1)).1 = None
  ∧ size (getHostToChannelMap (ProcessChannels chanList (NewNatssDispatcher 1 1)).2) = 2.
Proof.
  intros chanList.
  assert ((ProcessChannels chanList (NewNatssDispatcher 1 1)).1 = None) as Hok
    by reflexivity.
  split; [exact Hok|].
  exact (ProcessChannels_installs_one_entry_per_channel _ chanList Hok).
Defined.

(** ** The buffer of reconnect requests and the connection manager *)

Section Connection_manager.
Context {W : Type}.

#[local] Instance keeps_connection_refl : Reflexive keeps_connection.
Proof. intros s. unfold keeps_connection. tauto. Qed.

#[local] Instance keeps_connection_trans : Transitive keeps_connection.
Proof.
  intros s1 s2 s3 (H1 & H2 & H3 & H4 & H5 & H6) (K1 & K2 & K3 & K4 & K5 & K6).
  unfold keeps_connection. split_and!; try congruence. auto.
Qed.

Lemma signalReconnect_run (st : State W) :
  signalReconnect st =
  (tt,
   mkState (world st)
     (if decide (connect (sup st) < maxElements)
      then set_connect (S (connect (sup st))) (sup st) else sup st),
   [EvSignalReconnect]).
Proof. reflexivity. Qed.

(** X5: [k] calls of [signalReconnect] on a buffer holding [n] requests, [n]
    within the capacity, leave [min (n + k) maxElements] requests buffered:
    requests beyond the capacity are dropped, no call blocks or fails, and
    nothing but the buffer changes. *)
Theorem signalReconnect_saturates (k : nat) (st : State W) :
  connect (sup st) ≤ maxElements →
  let r := for_range (replicate k tt) (λ _, signalReconnect) st in
  connect (sup (after r)) = (connect (sup st) + k) `min` maxElements
  ∧ count_signalReconnect (events r) = k
  ∧ subscriptions (sup (after r)) = subscriptions (sup st)
  ∧ keeps_connection (sup st) (sup (after r))
  ∧ world (after r) = world st.
Proof.
  revert st. induction k as [|k IH]; intros st Hcap.
  { cbn [replicate for_range]. unfold ret, after, events. cbn [fst snd].
    split_and!; [lia|done..]. }
  cbn [replicate for_range]. cbv zeta.
  rewrite after_bind, events_bind, signalReconnect_run.
  cbn [after events value fst snd].
  set (st1 := mkState (world st) _).
  assert (connect (sup st1) = S (connect (sup st)) `min` maxElements
          ∧ subscriptions (sup st1) = subscriptions (sup st)
          ∧ keeps_connection (sup st) (sup st1)) as (Hc1 & Hs1 & Hk1).
  { subst st1. cbn [sup]. unfold keeps_connection.
    unfold maxElements in *. case_decide; cbn; split_and!; try done; lia. }
  destruct (IH st1) as (Hc & Hn & Hs & Hk & Hw); [lia|]. cbv zeta in Hc, Hn, Hs, Hk, Hw.
  split_and!.
  - rewrite Hc, Hc1. lia.
  - unfold count_signalReconnect in *. cbn. by rewrite Hn.
  - by rewrite Hs.
  - by etrans.
  - by rewrite Hw.
Qed.

(** The retry loop while no dial succeeds. *)
Lemma connectWithRetry_failing (errs : list error) (attempts : list Attempt) (st : State W) :
  connectWithRetry (((λ e, DialFailed e true) <$> errs) ++ attempts) st =
  (value (connectWithRetry attempts st),
   after (connectWithRetry attempts st),
   ((λ e, EvLog ErrorLevel "Connect() failed with error: %+v, retrying in %s" (Some e))
      <$> errs) ++ events (connectWithRetry attempts st)).
Proof.
  induction errs as [|e errs IH].
  - cbn [fmap list_fmap app]. by destruct (connectWithRetry attempts st) as [[b st'] t].
  - cbn -[String.append]. unfold bind. cbn -[String.append]. by rewrite IH.
Qed.

(** X6: when the dial fails any number of times, the ticker firing after each
    failure, and then succeeds, [connectWithRetry] returns with the new
    connection published and the in-progress flag cleared; it has logged one
    error per failed dial and changed nothing else, and later attempts are not
    made. *)
Theorem connectWithRetry_connects (errs : list error) (nConn : Conn)
    (rest : list Attempt) (st : State W) :
  let r := connectWithRetry (((λ e, DialFailed e true) <$> errs) ++ DialOk nConn :: rest) st in
  value r = true
  ∧ sup (after r) = set_natssConn (Some nConn) false (sup st)
  ∧ world (after r) = world st
  ∧ logged_errors (events r)
    = (λ e, ("Connect() failed with error: %+v, retrying in %s", e)) <$> errs.
Proof.
  cbv zeta. rewrite connectWithRetry_failing. cbn -[String.append].
  split_and!; [done..|].
  unfold logged_errors. rewrite app_nil_r.
  induction errs as [|e errs IH]; [done|]. cbn -[String.append]. by rewrite IH.
Qed.

(** X7: as long as no dial succeeds, [connectWithRetry] leaves the supervisor
    as it was, the in-progress flag included; it returns exactly when a
    failed dial is followed by the end of the context. *)
Theorem connectWithRetry_without_success (attempts : list Attempt) (st : State W) :
  (∀ nConn, DialOk nConn ∉ attempts) →
  let r := connectWithRetry attempts st in
  sup (after r) = sup st
  ∧ world (after r) = world st
  ∧ (value r = true ↔ ∃ err, DialFailed err false ∈ attempts).
Proof.
  induction attempts as [|[nConn|err ticked] attempts IH]; intros Hno.
  - cbn. split_and!; [done..|]. split; [done|]. intros [err Herr].
    by apply elem_of_nil in Herr.
  - destruct (Hno nConn). left.
  - destruct IH as (Hsup & Hw & Hret).
    { intros nConn Hin. apply (Hno nConn). by right. }
    cbv zeta in Hsup, Hw, Hret. cbn -[String.append]. unfold bind. cbn -[String.append].
    destruct ticked; cbn -[String.append].
    + destruct (connectWithRetry attempts st) as [[b st'] t].
      unfold value, after in *. cbn in *. split_and!; [done..|].
      rewrite Hret. split.
      * intros [e He]. exists e. by right.
      * intros [e [[=]|He]%elem_of_cons]. by exists e.
    + split_and!; [done..|]. split; [|done]. intros _. exists err. left.
Qed.

Lemma step_manager_inv (act : Action) (m m' : Manager (W := W)) :
  manager_inv m → step act m = Some m' → manager_inv m'.
Proof.
  destruct m as [st w n]. unfold manager_inv, step. cbn [mgr_state mgr_worker mgr_retrying].
  destruct act as [| | | | | |[nConn|err ticked]].
  - intros Hinv [= <-]. cbn [mgr_state mgr_worker mgr_retrying].
    rewrite signalReconnect_run. cbn [after fst snd sup].
    assert (natssConnInProgress
              (if decide (connect (sup st) < maxElements)
               then set_connect (S (connect (sup st))) (sup st) else sup st)
            = natssConnInProgress (sup st)) as -> by (by case_decide).
    done.
  - destruct w; try done. unfold Connect_receive, bind, get_sup, modify_sup, ret.
    cbn. destruct (connect (sup st)); [done|]. cbn. by intros Hinv [= <-].
  - destruct w; try done. intros Hinv [= <-]. cbn.
    destruct (natssConnInProgress (sup st)) eqn:Hflag; cbn; [done|].
    destruct Hinv as [?|[_ ?]]; [done|congruence].
  - destruct w; try done. by intros Hinv [= <-].
  - destruct w; try done. intros [-> Hflag] [= <-]. cbn. by right.
  - destruct w; try done. by intros Hinv [= <-].
  - destruct n as [|n]; [done|]. intros Hinv [= <-]. cbn.
    destruct w; cbn in *; try (destruct Hinv as [?|[? _]]; lia); try lia.
    all: by left.
  - destruct n as [|n]; [done|]. intros Hinv [= <-]. cbn -[String.append].
    destruct ticked; cbn -[String.append]; [done|].
    destruct w; cbn in *; try (destruct Hinv as [?|[? _]]; lia); try lia.
    all: left; destruct Hinv as [?|[? _]]; lia.
Qed.

Lemma steps_manager_inv (acts : list Action) :
  ∀ m m' : Manager (W := W), manager_inv m → steps acts m = Some m' → manager_inv m'.
Proof.
  induction acts as [|act acts IH]; intros m m' Hinv; cbn.
  - by intros [= <-].
  - destruct (step act m) as [m1|] eqn:Hstep; [|done].
    apply IH. by eapply step_manager_inv.
Qed.

(** X8: start with the worker at its [select] and no retry task; then,
    however the calls of [signalReconnect], the steps of the worker and the
    turns of the retry tasks interleave, at most one retry task runs at any
    time, and while one runs the in-progress flag is set. *)
Theorem at_most_one_retry_task (acts : list Action) (m m' : Manager (W := W)) :
  mgr_worker m = AtSelect →
  mgr_retrying m = 0 →
  steps acts m = Some m' →
  mgr_retrying m' ≤ 1
  ∧ (mgr_retrying m' = 1 → natssConnInProgress (sup (mgr_state m')) = true).
Proof.
  intros Hw Hn Hsteps.
  assert (manager_inv m') as Hinv.
  { eapply steps_manager_inv; [|exact Hsteps]. unfold manager_inv. rewrite Hw. by left. }
  unfold manager_inv in Hinv.
  destruct (mgr_worker m'); split; intros; try lia; destruct_and?;
    try destruct Hinv as [?|[? ?]]; try done; lia.
Qed.

End Connection_manager.

Lemma signalReconnect_saturates_witness :
  let st := mkState healthy (set_connect 8 (supervisor_with ∅)) in
  connect (sup st) ≤ maxElements
  ∧ connect (sup (after (for_range (replicate 5 tt) (λ _, signalReconnect) st))) = 10.
Proof.
  intros st. assert (connect (sup st) ≤ maxElements) as Hcap by (cbn; unfold maxElements; lia).
  split; [exact Hcap|].
  destruct (signalReconnect_saturates 5 st Hcap) as [Hc _]. exact Hc.
Defined.

Lemma connectWithRetry_without_success_witness :
  let st := mkState healthy (set_natssConn None true (supervisor_with ∅)) in
  let attempts := [DialFailed (errors_New "nats: no servers available") true;
                   DialFailed (errors_New "nats: no servers available") false;
                   DialFailed (errors_New "nats: no servers available") true] in
  (∀ nConn, DialOk nConn ∉ attempts)
  ∧ natssConnInProgress (sup (after (connectWithRetry attempts st))) = true
  ∧ value (connectWithRetry attempts st) = true.
Proof.
  intros st attempts.
  assert (∀ nConn, DialOk nConn ∉ attempts) as Hno.
  { intros nConn Hin. repeat (apply elem_of_cons in Hin as [[=]|Hin]).
    by apply elem_of_nil in Hin. }
  destruct (connectWithRetry_without_success attempts st Hno) as (Hsup & _ & Hret).
  split_and!; [exact Hno|by rewrite Hsup|].
  apply Hret. eexists. right. left.
Defined.

Lemma at_most_one_retry_task_witness :
  let m := mkManager (mkState tt (NewNatssDispatcher 1 10)) AtSelect 0 in
  let err := errors_New "nats: no servers available" in
  let acts := [ActSignal; ActReceive; ActRead; ActMark; ActGo;
               ActSignal; ActRetry (DialFailed err true); ActReceive; ActRead;
               ActRetry (DialOk 7)] in
  mgr_worker m = AtSelect
  ∧ mgr_retrying m = 0
  ∧ (∃ m', steps acts m = Some m'
           ∧ mgr_retrying m' ≤ 1
           ∧ natssConn (sup (mgr_state m')) = Some 7).
Proof.
  intros m err acts. split_and!; [reflexivity..|].
  eexists. split; [vm_compute; reflexivity|]. split; [|reflexivity].
  eapply (at_most_one_retry_task acts m); [reflexivity..|vm_compute; reflexivity].
Defined.

(** ** The reconciler: what a call keeps and what it removes *)

Section Reconciler.
Context {W : Type} `{!External W}.

#[local] Existing Instance keeps_connection_refl.
#[local] Existing Instance keeps_connection_trans.

Lemma keeps_connection_set_subscriptions (f : SubscriptionChannelMapping → SubscriptionChannelMapping)
    (s : subscriptionsSupervisor) :
  keeps_connection s (set_subscriptions f s).
Proof. unfold keeps_connection. cbn. tauto. Qed.

Lemma subscribe_keeps_connection (channel : ChannelReference)
    (subscription : subscriptionReference) (st : State W) :
  keeps_connection (sup st) (sup (after (subscribe channel subscription st))).
Proof.
  unfold subscribe, signalReconnect, bind, call, get_sup, modify_sup, logger_Error,
    emit, ret, keeps_connection, maxElements.
  cbn -[String.append decide].
  destruct (natssConn (sup st)) as [conn|] eqn:Hconn; cbn -[String.append decide];
    [|by rewrite Hconn].
  destruct (Subscribe conn _ _ (world st)) as [[h|e] w]; cbn -[String.append decide];
    repeat (case_decide; cbn -[String.append decide]);
    rewrite ?Hconn; split_and!; try done; lia.
Qed.

Lemma unsubscribe_logged_keeps_connection (cRef : ChannelReference) (sub : types_UID)
    (st : State W) :
  keeps_connection (sup st) (sup (after (unsubscribe_logged cRef sub st))).
Proof.
  rewrite unsubscribe_logged_run, unsubscribe_run. cbn [after fst snd].
  destruct (handle_at cRef sub (sup st)) as [h|]; [|done].
  destruct (Unsubscribe h (world st)) as [[err|] w]; cbn [after fst snd sup]; [done|].
  apply keeps_connection_set_subscriptions.
Qed.

Lemma for_range_keeps_connection {A} (body : A → M W unit) (xs : list A) :
  (∀ x st, keeps_connection (sup st) (sup (after (body x st)))) →
  ∀ st, keeps_connection (sup st) (sup (after (for_range xs body st))).
Proof.
  intros Hbody. induction xs as [|x xs IH]; intros st; [done|].
  cbn [for_range]. rewrite after_bind. etrans; [apply Hbody|apply IH].
Qed.

Lemma subscribers_loop_keeps_connection (cRef : ChannelReference)
    (subscribers : list SubscriberSpec) :
  ∀ (activeSubs : gmap string bool) (failedToSubscribe : gmap SubscriberSpec error)
    (st : State W),
  keeps_connection (sup st)
    (sup (after (UpdateSubscriptions_subscribers cRef subscribers activeSubs
                   failedToSubscribe st))).
Proof.
  induction subscribers as [|sub subscribers IH]; intros activeSubs failed st; [done|].
  rewrite UpdateSubscriptions_subscribers_cons. cbv zeta.
  destruct (chMap_of cRef (sup st) !! UID sub); [apply IH|].
  pose proof (subscribe_keeps_connection cRef sub st) as Hsub.
  destruct (value (subscribe cRef sub st)) as [natssSub|err]; cbn [after fst snd].
  - etrans; [exact Hsub|]. etrans; [|apply IH]. apply keeps_connection_set_subscriptions.
  - etrans; [exact Hsub|apply IH].
Qed.

Lemma UpdateSubscriptions_keeps_connection (name ns : string)
    (subscribers : list SubscriberSpec) (isFinalizer : bool) (st : State W) :
  keeps_connection (sup st)
    (sup (after (UpdateSubscriptions name ns subscribers isFinalizer st))).
Proof.
  destruct (decide (isFinalizer = true ∨ subscribers = [])) as [Hcase|Hcase].
  - rewrite UpdateSubscriptions_teardown by done.
    destruct (subscriptions (sup st) !! _); [|done]. cbn [after fst snd sup].
    etrans; [|apply keeps_connection_set_subscriptions].
    apply for_range_keeps_connection, unsubscribe_logged_keeps_connection.
  - assert (isFinalizer = false) as -> by (destruct isFinalizer; tauto).
    rewrite UpdateSubscriptions_steady by tauto. cbv zeta. cbn [after fst snd].
    set (cRef := mkChannelReference ns name).
    set (st0 := match subscriptions (sup st) !! cRef with Some _ => st | None => _ end).
    assert (keeps_connection (sup st) (sup st0)) as H0.
    { subst st0. destruct (subscriptions (sup st) !! cRef); [done|].
      apply keeps_connection_set_subscriptions. }
    set (r1 := UpdateSubscriptions_subscribers cRef subscribers ∅ ∅ st0).
    set (r2 := for_range _ _ (after r1)).
    assert (keeps_connection (sup st0) (sup (after r1))) as H1
      by apply subscribers_loop_keeps_connection.
    assert (keeps_connection (sup (after r1)) (sup (after r2))) as H2.
    { apply for_range_keeps_connection. intros k st'.
      destruct (default false _); [done|apply unsubscribe_logged_keeps_connection]. }
    etrans; [exact H0|]. etrans; [exact H1|]. etrans; [exact H2|].
    case_bool_decide; [|done]. apply keeps_connection_set_subscriptions.
Qed.

(** X9: a call of [UpdateSubscriptions] for one channel leaves the entry of
    every other channel as it was, and leaves the connection, the in-progress
    flag, the host map and the configuration as they were; the buffer of
    reconnect requests stays within its capacity. *)
Theorem UpdateSubscriptions_touches_one_channel (name ns : string)
    (subscribers : list SubscriberSpec) (isFinalizer : bool) (st : State W) :
  let r := UpdateSubscriptions name ns subscribers isFinalizer st in
  (∀ c, c ≠ mkChannelReference ns name →
        subscriptions (sup (after r)) !! c = subscriptions (sup st) !! c)
  ∧ keeps_connection (sup st) (sup (after r)).
Proof.
  split; [|apply UpdateSubscriptions_keeps_connection].
  intros c Hc.
  destruct (UpdateSubscriptions_registry name ns subscribers isFinalizer st)
    as [->|(m' & _ & ->)].
  - by rewrite lookup_delete_ne.
  - by rewrite lookup_insert_ne.
Qed.

Lemma handle_at_chMap_of (cRef : ChannelReference) (k : string)
    (s : subscriptionsSupervisor) :
  handle_at cRef k s = chMap_of cRef s !! k.
Proof.
  unfold handle_at, chMap_of. by destruct (subscriptions s !! cRef).
Qed.

(** The state in which the subscribe loop of the steady case starts. *)
Lemma steady_entry (cRef : ChannelReference) (st : State W) :
  let st0 := match subscriptions (sup st) !! cRef with
             | Some _ => st
             | None => mkState (world st) (set_subscriptions (insert cRef ∅) (sup st))
             end in
  subscriptions (sup st0) !! cRef = Some (chMap_of cRef (sup st))
  ∧ <[cRef := chMap_of cRef (sup st)]> (subscriptions (sup st)) = subscriptions (sup st0).
Proof.
  unfold chMap_of. destruct (subscriptions (sup st) !! cRef) as [m|] eqn:Hm; cbn.
  - split; [done|]. by rewrite insert_id.
  - by rewrite lookup_insert_eq.
Qed.

(** The subscribe loop registers desired uids only. *)
Lemma subscribers_loop_origin (cRef : ChannelReference) (subscribers : list SubscriberSpec) :
  ∀ (activeSubs : gmap string bool) (failedToSubscribe : gmap SubscriberSpec error)
    (st : State W) (m : gmap string Handle),
  subscriptions (sup st) !! cRef = Some m →
  let r := UpdateSubscriptions_subscribers cRef subscribers activeSubs
             failedToSubscribe st in
  ∀ k, is_Some (chMap_of cRef (sup (after r)) !! k) →
       is_Some (m !! k) ∨ k ∈ UID <$> subscribers.
Proof.
  induction subscribers as [|sub subscribers IH]; intros activeSubs failed st m Hm.
  { cbn. rewrite (chMap_of_Some _ _ m Hm). by left. }
  cbv zeta. rewrite UpdateSubscriptions_subscribers_cons, (chMap_of_Some (sup st) cRef m Hm).
  cbv zeta. rewrite fmap_cons. setoid_rewrite elem_of_cons.
  destruct (m !! UID sub) as [h|] eqn:Hsub.
  { intros k Hk. destruct (IH _ failed st m Hm k Hk); auto. }
  destruct (subscribe_frame cRef sub st) as (Hframe & _). cbv zeta in Hframe.
  destruct (value (subscribe cRef sub st)) as [natssSub|err]; cbn [after fst snd].
  - set (st2 := mkState _ _).
    assert (subscriptions (sup st2) !! cRef = Some (<[UID sub := natssSub]> m)) as Hm2.
    { subst st2. unfold set_subscriptions. cbn [sup subscriptions].
      by rewrite lookup_alter_eq, Hframe, Hm. }
    intros k Hk. destruct (IH _ failed st2 _ Hm2 k Hk) as [Hk'|Hk']; [|by auto].
    rewrite lookup_insert in Hk'. case_decide; auto.
  - assert (subscriptions (sup (after (subscribe cRef sub st))) !! cRef = Some m) as Hm1
      by (by rewrite Hframe).
    intros k Hk. destruct (IH _ _ _ m Hm1 k Hk); auto.
Qed.

(** Every desired uid that is registered when the subscribe loop ends has
    been marked active. *)
Lemma subscribers_loop_active (cRef : ChannelReference) (subscribers : list SubscriberSpec) :
  ∀ (activeSubs : gmap string bool) (failedToSubscribe : gmap SubscriberSpec error)
    (st : State W) (m : gmap string Handle),
  subscriptions (sup st) !! cRef = Some m →
  let r := UpdateSubscriptions_subscribers cRef subscribers activeSubs
             failedToSubscribe st in
  ∀ sub, sub ∈ subscribers →
         is_Some (chMap_of cRef (sup (after r)) !! UID sub) →
         (value r).1 !! UID sub = Some true.
Proof.
  induction subscribers as [|sub subscribers IH]; intros activeSubs failed st m Hm.
  { cbv zeta. intros sub Hsub. by apply elem_of_nil in Hsub. }
  cbv zeta. intros sub0.
  pose proof (subscribers_loop_origin cRef subscribers) as Horigin.
  rewrite UpdateSubscriptions_subscribers_cons, (chMap_of_Some (sup st) cRef m Hm).
  cbv zeta. destruct (m !! UID sub) as [h|] eqn:Hsub.
  { intros [->|Hin]%elem_of_cons Hreg; [|by eapply IH].
    destruct (subscribers_loop cRef subscribers (<[UID sub := true]> activeSubs)
                failed st m Hm) as (_ & _ & _ & _ & Hact & _).
    apply Hact. by rewrite lookup_insert_eq. }
  destruct (subscribe_frame cRef sub st) as (Hframe & _). cbv zeta in Hframe.
  destruct (value (subscribe cRef sub st)) as [natssSub|err]; cbn [value after fst snd].
  - set (st2 := mkState _ _).
    assert (subscriptions (sup st2) !! cRef = Some (<[UID sub := natssSub]> m)) as Hm2.
    { subst st2. unfold set_subscriptions. cbn [sup subscriptions].
      by rewrite lookup_alter_eq, Hframe, Hm. }
    intros [->|Hin]%elem_of_cons Hreg; [|by eapply IH].
    destruct (subscribers_loop cRef subscribers (<[UID sub := true]> activeSubs)
                failed st2 _ Hm2) as (_ & _ & _ & _ & Hact & _).
    apply Hact. by rewrite lookup_insert_eq.
  - assert (subscriptions (sup (after (subscribe cRef sub st))) !! cRef = Some m) as Hm1
      by (by rewrite Hframe).
    intros [->|Hin]%elem_of_cons Hreg; [|by eapply IH].
    destruct (Horigin activeSubs (<[sub := err]> failed) _ m Hm1 _ Hreg) as [Hk|Hk].
    + rewrite Hsub in Hk. by destruct Hk.
    + apply list_elem_of_fmap in Hk as (sub' & Heq & Hin'). rewrite Heq in Hreg |- *.
      by eapply IH.
Qed.

(** The steady case in one statement: the inner map [m1] after the subscribe
    loop, the uids marked active, and the inner map after the unsubscribe
    loop, which is the channel's map when the call returns. *)
Lemma UpdateSubscriptions_steady_facts (name ns : string)
    (subscribers : list SubscriberSpec) (st : State W) :
  subscribers ≠ [] →
  let cRef := mkChannelReference ns name in
  let r := UpdateSubscriptions name ns subscribers false st in
  let m := chMap_of cRef (sup st) in
  let m2 := chMap_of cRef (sup (after r)) in
  ∃ (m1 : gmap string Handle) (active : string → bool),
    (∀ k h, m !! k = Some h → m1 !! k = Some h)
    ∧ (∀ k, is_Some (m1 !! k) → is_Some (m !! k) ∨ k ∈ UID <$> subscribers)
    ∧ (∀ sub, sub ∈ subscribers → is_Some (m1 !! UID sub) → active (UID sub) = true)
    ∧ (∀ k, active k = true → k ∈ UID <$> subscribers)
    ∧ (∀ k, m2 !! k = m1 !! k ∨ (m2 !! k = None ∧ active k = false))
    ∧ (∀ k, active k = true → m2 !! k = m1 !! k)
    ∧ unsubscribed (events r)
      = omap (λ k, if active k then None else m1 !! k) (range_keys m1).
Proof.
  intros Hne cRef r m m2. subst r m2. rewrite UpdateSubscriptions_steady by done.
  fold cRef. cbv zeta. destruct (steady_entry cRef st) as [Hm0 _]. cbv zeta in Hm0.
  set (st0 := match subscriptions (sup st) !! cRef with Some _ => st | None => _ end) in *.
  destruct (subscribers_loop cRef subscribers ∅ ∅ st0 m Hm0)
    as (m1 & Hsubs1 & Hmono & Hun1 & _ & Hdes & _).
  pose proof (subscribers_loop_origin cRef subscribers ∅ ∅ st0 m Hm0) as Horigin.
  pose proof (subscribers_loop_active cRef subscribers ∅ ∅ st0 m Hm0) as Hactive.
  cbv zeta in Hsubs1, Hun1, Hdes, Horigin, Hactive.
  set (r1 := UpdateSubscriptions_subscribers cRef subscribers ∅ ∅ st0) in *.
  assert (subscriptions (sup (after r1)) !! cRef = Some m1) as Hm1
    by (by rewrite Hsubs1, lookup_insert_eq).
  rewrite (chMap_of_Some (sup (after r1)) cRef m1 Hm1) in *.
  destruct (unsubscribe_loop cRef (λ sub, default false ((value r1).1 !! sub))
              (range_keys m1) (range_keys_NoDup m1) (after r1) m1 Hm1)
    as (m2 & Hsup2 & Hm2 & Hun2 & _).
  cbv zeta in Hsup2, Hm2, Hun2.
  set (r2 := for_range (range_keys m1) _ (after r1)) in *.
  assert (subscriptions (sup (after r2)) !! cRef = Some m2) as Hlk2.
  { rewrite Hsup2. cbn. by rewrite lookup_insert_eq. }
  rewrite (chMap_of_Some _ _ m2 Hlk2). cbn [after events fst snd].
  assert (chMap_of cRef
            (sup (if bool_decide (size m2 = 0)
                  then mkState (world (after r2))
                         (set_subscriptions (delete cRef) (sup (after r2)))
                  else after r2)) = m2) as ->.
  { case_bool_decide as Hsize; [|by apply chMap_of_Some].
    apply map_size_empty_iff in Hsize as ->. unfold chMap_of. cbn.
    by rewrite lookup_delete_eq. }
  exists m1, (λ sub, default false ((value r1).1 !! sub)). split_and!.
  - exact Hmono.
  - exact Horigin.
  - intros sub Hsub Hreg. by rewrite (Hactive sub Hsub Hreg).
  - intros k Hk. destruct (Hdes k) as [Heq|?]; [|done].
    by rewrite Heq, lookup_empty in Hk.
  - intros k. destruct (Hm2 k) as [?|(? & _ & ?)]; auto.
  - intros k Hk. destruct (Hm2 k) as [?|(_ & _ & Hskip)]; [done|].
    cbv beta in Hskip. congruence.
  - unfold unsubscribed in *. by rewrite omap_app, Hun1, Hun2.
Qed.

(** X10: a call with [isFinalizer] false keeps every desired subscriber that
    is already registered under the handle it has. *)
Theorem UpdateSubscriptions_keeps_desired (name ns : string)
    (subscribers : list SubscriberSpec) (sub : SubscriberSpec) (h : Handle)
    (st : State W) :
  sub ∈ subscribers →
  handle_at (mkChannelReference ns name) (UID sub) (sup st) = Some h →
  handle_at (mkChannelReference ns name) (UID sub)
    (sup (after (UpdateSubscriptions name ns subscribers false st))) = Some h.
Proof.
  intros Hsub Hh.
  assert (subscribers ≠ []) as Hne by (intros ->; by apply elem_of_nil in Hsub).
  destruct (UpdateSubscriptions_steady_facts name ns subscribers st Hne)
    as (m1 & active & Hmono & _ & Hact & _ & _ & Hkept & _).
  cbv zeta in Hmono, Hact, Hkept. rewrite !handle_at_chMap_of in *.
  apply Hmono in Hh. rewrite Hkept; [done|]. apply Hact; [done|]. by rewrite Hh.
Qed.

(** X11: a call never registers a uid that is not desired and never changes
    the handle of a uid it keeps: an entry of the channel after the call was
    there before with the same handle, or is new and its uid is desired. *)
Theorem UpdateSubscriptions_registers_desired_only (name ns : string)
    (subscribers : list SubscriberSpec) (isFinalizer : bool) (k : types_UID)
    (h : Handle) (st : State W) :
  handle_at (mkChannelReference ns name) k
    (sup (after (UpdateSubscriptions name ns subscribers isFinalizer st))) = Some h →
  handle_at (mkChannelReference ns name) k (sup st) = Some h
  ∨ (handle_at (mkChannelReference ns name) k (sup st) = None
     ∧ k ∈ UID <$> subscribers ∧ isFinalizer = false).
Proof.
  destruct (decide (isFinalizer = true ∨ subscribers = [])) as [Hcase|Hcase].
  - destruct (UpdateSubscriptions_teardown_spec name ns subscribers isFinalizer st Hcase)
      as (_ & Hgone & _). cbv zeta in Hgone.
    unfold handle_at at 1. by rewrite Hgone.
  - assert (isFinalizer = false) as -> by (destruct isFinalizer; tauto).
    destruct (UpdateSubscriptions_steady_facts name ns subscribers st)
      as (m1 & active & Hmono & Horigin & _ & _ & Hm2 & _); [tauto|].
    cbv zeta in Hmono, Horigin, Hm2. rewrite !handle_at_chMap_of.
    intros Hk. destruct (Hm2 k) as [Heq|[Hnone _]]; [|congruence].
    rewrite Heq in Hk.
    destruct (chMap_of (mkChannelReference ns name) (sup st) !! k) as [h0|] eqn:Hold.
    + left. apply Hmono in Hold. congruence.
    + right. split_and!; [done| |done].
      destruct (Horigin k) as [[? ?]|?]; [by eexists|congruence|done].
Qed.

(** X12: in the steady case the backend's [Unsubscribe] is called on the
    handles of the registered uids that are not desired, on every one of
    them, and on no other handle. *)
Theorem UpdateSubscriptions_unsubscribes_stale (name ns : string)
    (subscribers : list SubscriberSpec) (h : Handle) (st : State W) :
  subscribers ≠ [] →
  h ∈ unsubscribed (events (UpdateSubscriptions name ns subscribers false st))
  ↔ ∃ k, handle_at (mkChannelReference ns name) k (sup st) = Some h
         ∧ k ∉ UID <$> subscribers.
Proof.
  intros Hne.
  destruct (UpdateSubscriptions_steady_facts name ns subscribers st Hne)
    as (m1 & active & Hmono & Horigin & Hact & Hdes & _ & _ & ->).
  cbv zeta in Hmono, Horigin, Hact, Hdes. setoid_rewrite handle_at_chMap_of.
  rewrite list_elem_of_omap. split.
  - intros (k & Hk & Hh). destruct (active k) eqn:Hactive; [done|].
    exists k. assert (k ∉ UID <$> subscribers) as Hstale.
    { intros (sub & -> & Hsub)%list_elem_of_fmap.
      rewrite Hact in Hactive; [done|done|by rewrite Hh]. }
    split; [|done]. destruct (Horigin k) as [[h0 Hold]|?]; [by rewrite Hh| |done].
    rewrite Hold. apply Hmono in Hold. congruence.
  - intros (k & Hold & Hstale). exists k. apply Hmono in Hold. split.
    + apply elem_of_range_keys. by rewrite Hold.
    + destruct (active k) eqn:Hactive; [|done]. by apply Hdes in Hactive.
Qed.

(** X13: a call in the steady case that returns an empty failures map and
    whose backend unsubscribes all succeed leaves the channel registered with
    exactly the desired uids. *)
Theorem UpdateSubscriptions_converges (name ns : string)
    (subscribers : list SubscriberSpec) (st : State W) :
  subscribers ≠ [] →
  let r := UpdateSubscriptions name ns subscribers false st in
  (value r).1 = ∅ →
  unsubscribe_failures (events r) = [] →
  ∀ k, is_Some (handle_at (mkChannelReference ns name) k (sup (after r)))
       ↔ k ∈ UID <$> subscribers.
Proof.
  intros Hne r Hempty Hnf k. subst r.
  destruct (UpdateSubscriptions_settles name ns subscribers st Hne Hempty Hnf)
    as (m & Hm & Hall & Honly).
  unfold handle_at. rewrite Hm. cbn. split; [apply Honly|].
  intros (sub & -> & Hsub)%list_elem_of_fmap. by apply Hall.
Qed.

(** [subscribe] without a connection. *)
Lemma subscribe_disconnected (channel : ChannelReference)
    (subscription : subscriptionReference) (st : State W) :
  natssConn (sup st) = None →
  subscribe channel subscription st = (Err noConnection, st, []).
Proof.
  intros Hconn. unfold subscribe, bind, get_sup, ret. cbn. by rewrite Hconn.
Qed.

(** The subscribe loop without a connection: no backend call, no change, and
    a failure recorded for each desired subscriber that is not registered. *)
Lemma subscribers_loop_disconnected (cRef : ChannelReference)
    (subscribers : list SubscriberSpec) :
  ∀ (activeSubs : gmap string bool) (failedToSubscribe : gmap SubscriberSpec error)
    (st : State W) (m : gmap string Handle),
  natssConn (sup st) = None →
  subscriptions (sup st) !! cRef = Some m →
  let r := UpdateSubscriptions_subscribers cRef subscribers activeSubs
             failedToSubscribe st in
  after r = st
  ∧ subscribed (events r) = []
  ∧ (∀ s, failedToSubscribe !! s = Some noConnection → (value r).2 !! s = Some noConnection)
  ∧ (∀ sub, sub ∈ subscribers → m !! UID sub = None →
            (value r).2 !! sub = Some noConnection)
  ∧ (∀ s e, (value r).2 !! s = Some e →
            failedToSubscribe !! s = Some e
            ∨ (s ∈ subscribers ∧ m !! UID s = None ∧ e = noConnection)).
Proof.
  induction subscribers as [|sub subscribers IH]; intros activeSubs failed st m Hconn Hm.
  { cbn. split_and!; try done; [|by left]. intros sub Hsub. by apply elem_of_nil in Hsub. }
  cbv zeta. rewrite UpdateSubscriptions_subscribers_cons, (chMap_of_Some (sup st) cRef m Hm).
  cbv zeta. setoid_rewrite elem_of_cons.
  destruct (m !! UID sub) as [h|] eqn:Hsub.
  { destruct (IH (<[UID sub := true]> activeSubs) failed st m Hconn Hm)
      as (Hafter & Hsubscribed & Hkeep & Hall & Honly).
    split_and!; [done..| |].
    - intros sub' [->|Hin] Hnone; [congruence|by apply Hall].
    - intros s e Hs. destruct (Honly s e Hs) as [?|(? & ? & ?)]; auto. }
  rewrite subscribe_disconnected by done. cbn [value after events fst snd].
  destruct (IH activeSubs (<[sub := noConnection]> failed) st m Hconn Hm)
    as (Hafter & Hsubscribed & Hkeep & Hall & Honly).
  split_and!.
  - done.
  - unfold subscribed in *. cbn -[String.append]. exact Hsubscribed.
  - intros s Hs. apply Hkeep. rewrite lookup_insert. by case_decide.
  - intros sub' [->|Hin] Hnone; [|by apply Hall].
    apply Hkeep. by rewrite lookup_insert_eq.
  - intros s e Hs. destruct (Honly s e Hs) as [Hins|(? & ? & ?)]; [|by auto].
    rewrite lookup_insert in Hins. case_decide as Heq; [|by left].
    subst s. injection Hins as <-. right. auto.
Qed.

(** X14: a call in the steady case without a connection asks the backend for
    no subscription and returns, for each desired subscriber that is not
    registered, the error of the missing connection, and nothing else; when
    the channel is not in the registry the call leaves the supervisor as it
    was and unsubscribes nothing. *)
Theorem UpdateSubscriptions_disconnected (name ns : string)
    (subscribers : list SubscriberSpec) (st : State W) :
  natssConn (sup st) = None →
  subscribers ≠ [] →
  let cRef := mkChannelReference ns name in
  let r := UpdateSubscriptions name ns subscribers false st in
  subscribed (events r) = []
  ∧ (∀ sub, sub ∈ subscribers → handle_at cRef (UID sub) (sup st) = None →
            (value r).1 !! sub = Some noConnection)
  ∧ (∀ s e, (value r).1 !! s = Some e →
            s ∈ subscribers ∧ handle_at cRef (UID s) (sup st) = None ∧ e = noConnection)
  ∧ (subscriptions (sup st) !! cRef = None →
     sup (after r) = sup st ∧ unsubscribed (events r) = []).
Proof.
  intros Hconn Hne cRef r. subst r. rewrite UpdateSubscriptions_steady by done.
  fold cRef. cbv zeta. destruct (steady_entry cRef st) as [Hm0 _]. cbv zeta in Hm0.
  set (st0 := match subscriptions (sup st) !! cRef with Some _ => st | None => _ end) in *.
  assert (natssConn (sup st0) = None) as Hconn0.
  { subst st0. by destruct (subscriptions (sup st) !! cRef). }
  destruct (subscribers_loop_disconnected cRef subscribers ∅ ∅ st0 _ Hconn0 Hm0)
    as (Hafter & Hsubscribed & _ & Hall & Honly).
  cbv zeta in Hafter, Hsubscribed, Hall, Honly.
  set (r1 := UpdateSubscriptions_subscribers cRef subscribers ∅ ∅ st0) in *.
  rewrite Hafter, (chMap_of_Some (sup st0) cRef _ Hm0).
  destruct (unsubscribe_loop cRef (λ sub, default false ((value r1).1 !! sub))
              (range_keys (chMap_of cRef (sup st))) (range_keys_NoDup _) st0 _ Hm0)
    as (m2 & _ & _ & _ & Hsub2 & _).
  cbv zeta in Hsub2. cbn [value after events fst snd].
  setoid_rewrite handle_at_chMap_of. split_and!.
  - unfold subscribed in *. by rewrite omap_app, Hsubscribed, Hsub2.
  - exact Hall.
  - intros s e Hs. destruct (Honly s e Hs) as [Hs0|?]; [|done].
    by rewrite lookup_empty in Hs0.
  - intros Hnone.
    assert (chMap_of cRef (sup st) = ∅) as Hempty by (unfold chMap_of; by rewrite Hnone).
    assert (range_keys (∅ : gmap string Handle) = []) as Hkeys.
    { apply Permutation_nil_r. rewrite range_keys_perm. by rewrite map_to_list_empty. }
    rewrite Hempty, Hkeys. cbn [for_range]. unfold ret. cbn [after events fst snd].
    assert (chMap_of cRef (sup st0) = ∅) as ->
      by (by rewrite (chMap_of_Some _ _ _ Hm0)).
    rewrite bool_decide_eq_true_2 by apply map_size_empty.
    cbn [sup]. split.
    + subst st0. rewrite Hnone. destruct (sup st) as [subs ? ? ? ? ? ?].
      unfold set_subscriptions. cbn in *. by rewrite delete_insert_id.
    + unfold unsubscribed in *. rewrite app_nil_r.
      destruct (subscribers_loop cRef subscribers ∅ ∅ st0 _ Hm0) as (_ & _ & _ & Hun & _).
      exact Hun.
Qed.

(** X15: once [unsubscribe] has succeeded for a uid of a channel, calling it
    again for that uid reaches the backend no more: it returns nil and
    changes nothing. *)
Theorem unsubscribe_twice (channel : ChannelReference) (subscription : types_UID)
    (st : State W) :
  is_Some (handle_at channel subscription (sup st)) →
  let r := unsubscribe channel subscription st in
  value r = None →
  unsubscribe channel subscription (after r) = (None, after r, []).
Proof.
  intros [h Hh] r Hok. subst r.
  rewrite (unsubscribe_run channel subscription st) in Hok |- *.
  rewrite Hh in Hok |- *.
  destruct (Unsubscribe h (world st)) as [[err|] w]; [done|].
  cbn [after fst snd]. rewrite unsubscribe_run.
  assert (handle_at channel subscription
            (sup (mkState w (set_subscriptions (alter (delete subscription) channel)
                               (sup st)))) = None) as ->; [|done].
  unfold handle_at in *. cbn. rewrite lookup_alter_eq.
  destruct (subscriptions (sup st) !! channel); [|done]. cbn. apply lookup_delete_eq.
Qed.

End Reconciler.

(** ** The publisher and the callback: what they leave alone *)

Section Publisher_and_callback.
Context {W : Type} `{!External W}.

(** X16: [messageReceiverFunc] returns nil exactly when it created a sender
    and sent the message, both without error, and then it did nothing else;
    when it returns an error it logged one line at error level; in every
    case the registry is untouched and so are the connection, the host map
    and the configuration. *)
Theorem messageReceiverFunc_nil_iff_sent (channel : ChannelReference) (message : Message)
    (st : State W) :
  let r := messageReceiverFunc channel message st in
  (value r = None ↔
     ∃ conn, natssConn (sup st) = Some conn
             ∧ events r = [EvNewSender conn (getSubject channel) None;
                           EvSend conn (getSubject channel) message None])
  ∧ (value r ≠ None → length (error_lines (events r)) = 1)
  ∧ subscriptions (sup (after r)) = subscriptions (sup st)
  ∧ keeps_connection (sup st) (sup (after r)).
Proof.
  unfold messageReceiverFunc, signalReconnect, bind, call, get_sup, modify_sup,
    logger_Error, emit, ret, keeps_connection, maxElements.
  cbn -[String.append decide].
  destruct (natssConn (sup st)) as [conn|] eqn:Hconn; cbn -[String.append decide].
  2:{ rewrite Hconn. split_and!; try done. split; [done|]. by intros (? & [=] & _). }
  destruct (NewSenderFromConn conn (getSubject channel) (world st)) as [[e1|] w1];
    cbn -[String.append decide].
  { rewrite Hconn. split_and!; try done. split; [done|]. by intros (? & _ & [=]). }
  destruct (Send conn (getSubject channel) message w1) as [[e2|] w2];
    cbn -[String.append decide];
    repeat (case_decide; cbn -[String.append decide]);
    rewrite ?Hconn; split_and!; try done; try lia;
    try (split; [done|]; by intros (? & _ & [=])).
  split; [|done]. intros _. by exists conn.
Qed.

(** X17: without a connection, and when the sender cannot be created,
    [messageReceiverFunc] sends nothing, asks for no reconnect and leaves the
    supervisor as it was; it returns the error of the missing connection in
    the first case and the error of the sender, wrapped, in the second, also
    when that error prints as [ErrConnectionClosed]. *)
Theorem messageReceiverFunc_without_sender (channel : ChannelReference) (message : Message)
    (st : State W) :
  let r := messageReceiverFunc channel message st in
  (natssConn (sup st) = None →
   value r = Some noConnection ∧ subjects (events r) = []
   ∧ count_signalReconnect (events r) = 0 ∧ after r = st)
  ∧ (∀ conn err w,
       natssConn (sup st) = Some conn →
       NewSenderFromConn conn (getSubject channel) (world st) = (Some err, w) →
       value r = Some (errors_Wrap err "could not create natss sender")
       ∧ published (events r) = []
       ∧ count_signalReconnect (events r) = 0
       ∧ sup (after r) = sup st).
Proof.
  unfold messageReceiverFunc, bind, call, get_sup, logger_Error, emit, ret.
  cbn -[String.append decide]. split.
  - intros ->. by destruct st.
  - intros conn err w -> Hsender. cbn -[String.append decide]. by rewrite Hsender.
Qed.

Lemma url_of_Some (u : option URL) (v : URL) :
  url_of u = Some v ↔ u = Some v ∧ v ≠ EmptyString.
Proof.
  unfold url_of, URL_IsEmpty. destruct u as [s|]; [|by split; [|intros []]].
  case_bool_decide as Hs; split.
  - done.
  - intros [[= <-] ?]. done.
  - intros [= <-]. done.
  - by intros [? _].
Qed.

(** The acknowledgements the dispatcher made are invisible to a reading of
    the events that skips acknowledgements. *)
Lemma omap_dispatcher_acks {A : Type} (f : Event → option A) (m : stan_Msg)
    (acks : list (outcome unit)) (tl : list Event) :
  (∀ o, f (EvAck m o) = None) →
  omap f ((EvAck m <$> acks) ++ tl) = omap f tl.
Proof.
  intros Hf. induction acks as [|a acks IH]; [done|].
  cbn [fmap list_fmap app omap list_omap]. by rewrite Hf.
Qed.

(** X18: the callback never touches the supervisor: whatever the
    collaborators answer, an [Ack] that fails with [ErrConnectionClosed]
    included, the registry, the connection, the buffer of reconnect requests
    and the host map are what they were; it makes no subscribe, no
    unsubscribe and no publish and asks for no reconnect. *)
Theorem mcb_leaves_supervisor (channel : ChannelReference)
    (subscription : subscriptionReference) (stanMsg : stan_Msg) (st : State W) :
  let r := mcb channel subscription stanMsg st in
  sup (after r) = sup st
  ∧ subjects (events r) = []
  ∧ unsubscribed (events r) = []
  ∧ count_signalReconnect (events r) = 0.
Proof.
  unfold mcb, mcb_body, call_DispatchMessage, bind, call, logger_Error, logger_Warn,
    emit, ret, subjects, unsubscribed, count_signalReconnect.
  cbn -[String.append].
  destruct (NewMessage stanMsg (world st)) as [[event| |] w1]; cbn -[String.append];
    [|done..].
  destruct (DispatchMessage _ _ _ _ w1) as [[o acks] w2]. cbn -[String.append].
  destruct o as [[]| |]; cbn -[String.append];
    [destruct (Ack stanMsg w2) as [[| |] w3]; cbn -[String.append]|..];
    rewrite ?app_nil_r, <-?(assoc_L (++)), !omap_dispatcher_acks by done; done.
Qed.

(** X19: the callback hands a URL to [DispatchMessage] exactly for the fields
    of the subscription that are set and not empty: the destination for the
    subscriber URI, the reply for the reply URI, and the dead letter for the
    URI of the dead letter sink of the delivery, when the subscription has a
    delivery and the delivery has a sink. *)
Theorem mcb_dispatch_urls (channel : ChannelReference)
    (subscription : subscriptionReference) (stanMsg : stan_Msg) (st : State W)
    (message : Message) (destination reply deadLetter : option URL) (o : outcome unit) :
  EvDispatch message destination reply deadLetter o
    ∈ events (mcb channel subscription stanMsg st) →
  (∀ u, destination = Some u ↔ SubscriberURI subscription = Some u ∧ u ≠ EmptyString)
  ∧ (∀ u, reply = Some u ↔ ReplyURI subscription = Some u ∧ u ≠ EmptyString)
  ∧ (∀ u, deadLetter = Some u ↔
          ∃ delivery sink, Delivery subscription = Some delivery
                           ∧ DeadLetterSink delivery = Some sink
                           ∧ URI sink = Some u ∧ u ≠ EmptyString).
Proof.
  intros Hin.
  assert (destination = url_of (SubscriberURI subscription)
          ∧ reply = url_of (ReplyURI subscription)
          ∧ deadLetter = deadLetter_of subscription) as (-> & -> & ->).
  { revert Hin.
    unfold mcb, mcb_body, call_DispatchMessage, bind, call, logger_Error, logger_Warn,
      emit, ret.
    cbn -[String.append].
    destruct (NewMessage stanMsg (world st)) as [[event| |] w1]; cbn -[String.append];
      [destruct (DispatchMessage _ _ _ _ w1) as [[o' acks] w2]; cbn -[String.append];
       destruct o' as [[]| |]; cbn -[String.append];
       [destruct (Ack stanMsg w2) as [[| |] w3]; cbn -[String.append]|..]|..];
      rewrite ?app_nil_r, <-?(assoc_L (++)); intros Hin;
      repeat first
        [ apply elem_of_cons in Hin as [Hin|Hin]; [by simplify_eq|]
        | apply elem_of_app in Hin as [Hin|Hin];
          [apply list_elem_of_fmap in Hin as (? & ? & _); by simplify_eq|] ];
      by apply elem_of_nil in Hin. }
  split_and!; [apply url_of_Some..|].
  intros u. unfold deadLetter_of.
  destruct (Delivery subscription) as [delivery|];
    [|split; [done|by intros (? & ? & [=] & _)]].
  destruct (DeadLetterSink delivery) as [sink|] eqn:Hsink;
    [|split; [done|intros (d & sk & [= <-] & Hsk & _); congruence]].
  rewrite url_of_Some. split.
  - intros [? ?]. by exists delivery, sink.
  - intros (d & sk & [= <-] & Hsk & ? & ?). by assert (sk = sink) as -> by congruence.
Qed.

(** X20: a panic of a collaborator ends the callback at once: the call that
    panicked is its last call, the one thing that follows is the warning of
    the deferred function, and the callback returns; without a panic no
    warning is logged. *)
Theorem mcb_recovers_panic (channel : ChannelReference)
    (subscription : subscriptionReference) (stanMsg : stan_Msg) (st : State W) :
  let body := mcb_body channel subscription stanMsg st in
  let r := mcb channel subscription stanMsg st in
  (value body = None → events r = events body ∧ warn_lines (events r) = [])
  ∧ (∀ v, value body = Some v →
          events r = events body
                     ++ [EvLog WarnLevel "Panic happened while handling a message" None]
          ∧ error_lines (events body) = []
          ∧ ∃ calls last, events body = calls ++ [last]
              ∧ match last with
                | EvNewMessage _ (Panicked _) | EvDispatch _ _ _ _ (Panicked _)
                | EvAck _ (Panicked _) => True
                | _ => False
                end).
Proof.
  unfold mcb, mcb_body, call_DispatchMessage, bind, call, logger_Error, logger_Warn,
    emit, ret, warn_lines, error_lines.
  cbn -[String.append].
  destruct (NewMessage stanMsg (world st)) as [[event| |] w1]; cbn -[String.append].
  - destruct (DispatchMessage _ _ _ _ w1) as [[o acks] w2]. cbn -[String.append].
    destruct o as [[]| |]; cbn -[String.append].
    + destruct (Ack stanMsg w2) as [[| |] w3]; cbn -[String.append];
        rewrite ?app_nil_r, <-?(assoc_L (++));
        (split; [try done; intros _|intros v' [=]; try subst v']).
      * split; [done|]. by rewrite omap_dispatcher_acks.
      * split; [done|]. by rewrite omap_dispatcher_acks.
      * split_and!; [done|by rewrite omap_dispatcher_acks|].
        eexists (_ :: (_ <$> acks) ++ [_]), _.
        split; [cbn [app]; by rewrite <-(assoc_L (++))|done].
    + rewrite ?app_nil_r, <-?(assoc_L (++)). split; [|done]. intros _.
      split; [done|]. by rewrite omap_dispatcher_acks.
    + rewrite ?app_nil_r. split; [done|]. intros v' [= <-].
      split_and!; [done|by rewrite omap_dispatcher_acks|].
      by eexists (_ :: (_ <$> acks)), _.
  - by split.
  - split; [done|]. intros v' [= <-]. split_and!; [done..|]. by eexists [], _.
Qed.

End Publisher_and_callback.

Lemma messageReceiverFunc_nil_iff_sent_witness :
  let st := mkState healthy (supervisor_with registry_u1) in
  let r := messageReceiverFunc c1_n1 "event" st in
  value r = None
  ∧ events r = [EvNewSender 7 "c1.n1" None; EvSend 7 "c1.n1" "event" None].
Proof.
  intros st r.
  destruct (messageReceiverFunc_nil_iff_sent c1_n1 "event" st) as ((Hsent & _) & _).
  assert (value r = None) as Hnil by reflexivity.
  split; [exact Hnil|]. destruct (Hsent Hnil) as (conn & [= <-] & Hev). exact Hev.
Defined.

Lemma messageReceiverFunc_without_sender_witness :
  let st := mkState healthy (set_natssConn None false (supervisor_with registry_u1)) in
  natssConn (sup st) = None
  ∧ value (messageReceiverFunc c1_n1 "event" st) = Some noConnection
  ∧ after (messageReceiverFunc c1_n1 "event" st) = st.
Proof.
  intros st.
  destruct (messageReceiverFunc_without_sender c1_n1 "event" st) as [Hnone _].
  destruct (Hnone eq_refl) as (Hval & _ & _ & Hafter).
  split_and!; [reflexivity|exact Hval|exact Hafter].
Defined.

Lemma mcb_dispatch_urls_witness :
  let st := mkState healthy (supervisor_with ∅) in
  let sub := subscriber "u2" "http://s2/" in
  let msg := mkMsg 1 "c1.n1" "event" in
  EvDispatch "event" (Some "http://s2/") None None (Returned tt)
    ∈ events (mcb c1_n1 sub msg st)
  ∧ SubscriberURI sub = Some "http://s2/"
  ∧ ∀ u, None = Some u ↔ ReplyURI sub = Some u ∧ u ≠ EmptyString.
Proof.
  intros st sub msg.
  assert (EvDispatch "event" (Some "http://s2/") None None (Returned tt)
            ∈ events (mcb c1_n1 sub msg st)) as Hin by (vm_compute; right; left).
  destruct (mcb_dispatch_urls c1_n1 sub msg st _ _ _ _ _ Hin) as (Hdest & Hreply & _).
  split_and!; [exact Hin| |exact Hreply].
  by apply (Hdest "http://s2/").
Defined.

Lemma mcb_recovers_panic_witness :
  let broken := mkStub 1 None 0 None None (Panicked "nil message")
                  (Returned tt) (Returned tt) in
  let st := mkState broken (supervisor_with ∅) in
  let msg := mkMsg 1 "c1.n1" "event" in
  let sub := subscriber "u2" "http://s2/" in
  value (mcb_body c1_n1 sub msg st) = Some "nil message"
  ∧ events (mcb c1_n1 sub msg st)
    = events (mcb_body c1_n1 sub msg st)
      ++ [EvLog WarnLevel "Panic happened while handling a message" None].
Proof.
  intros broken st msg sub.
  destruct (mcb_recovers_panic c1_n1 sub msg st) as [_ Hpanic].
  destruct (Hpanic "nil message" eq_refl) as (Hev & _).
  split; [reflexivity|exact Hev].
Defined.

(** A finalizer on [c1] of [n1] next to channel [c2] with its own
    subscription. *)
Lemma UpdateSubscriptions_touches_one_channel_witness :
  let c2_n1 := mkChannelReference "n1" "c2" in
  let st := mkState flaky
              (supervisor_with (<[c2_n1 := {[ "u9" := 9 ]}]> registry_u1)) in
  let r := UpdateSubscriptions "c1" "n1" [] true st in
  c2_n1 ≠ c1_n1
  ∧ subscriptions (sup (after r)) !! c2_n1 = Some {[ "u9" := 9 ]}
  ∧ subscriptions (sup (after r)) !! c1_n1 = None.
Proof.
  intros c2_n1 st r.
  assert (c2_n1 ≠ c1_n1) as Hne by discriminate.
  destruct (UpdateSubscriptions_touches_one_channel "c1" "n1" [] true st) as [Hother _].
  split_and!; [exact Hne| |vm_compute; reflexivity].
  etrans; [exact (Hother c2_n1 Hne)|]. vm_compute. reflexivity.
Defined.

(** Scenario 3 with [u1] still desired: [u1] keeps handle 1 and [u2] is
    added. *)
Lemma UpdateSubscriptions_keeps_desired_witness :
  let st := mkState flaky (supervisor_with registry_u1) in
  let subscribers := [subscriber "u2" "http://s2/"; subscriber "u1" "http://s1/"] in
  subscriber "u1" "http://s1/" ∈ subscribers
  ∧ handle_at c1_n1 "u1" (sup st) = Some 1
  ∧ handle_at c1_n1 "u1"
      (sup (after (UpdateSubscriptions "c1" "n1" subscribers false st))) = Some 1.
Proof.
  intros st subscribers.
  assert (subscriber "u1" "http://s1/" ∈ subscribers) as Hin by (right; left).
  assert (handle_at c1_n1 "u1" (sup st) = Some 1) as Hh by (vm_compute; reflexivity).
  split_and!; [exact Hin|exact Hh|].
  exact (UpdateSubscriptions_keeps_desired "c1" "n1" subscribers _ 1 st Hin Hh).
Defined.

Lemma UpdateSubscriptions_registers_desired_only_witness :
  let st := mkState flaky (supervisor_with registry_u1) in
  let subscribers := [subscriber "u2" "http://s2/"; subscriber "u1" "http://s1/"] in
  handle_at c1_n1 "u2"
    (sup (after (UpdateSubscriptions "c1" "n1" subscribers false st))) = Some 2
  ∧ "u2" ∈ UID <$> subscribers.
Proof.
  intros st subscribers.
  assert (handle_at c1_n1 "u2"
            (sup (after (UpdateSubscriptions "c1" "n1" subscribers false st))) = Some 2)
    as Hh by (vm_compute; reflexivity).
  split; [exact Hh|].
  destruct (UpdateSubscriptions_registers_desired_only "c1" "n1" subscribers false
              "u2" 2 st Hh) as [Hold|(_ & Hdes & _)]; [|exact Hdes].
  vm_compute in Hold. discriminate Hold.
Defined.

(** Scenario 3: [u1] is registered and no more desired. *)
Lemma UpdateSubscriptions_unsubscribes_stale_witness :
  let st := mkState healthy (supervisor_with registry_u1) in
  let subscribers := [subscriber "u2" "http://s2/"] in
  subscribers ≠ []
  ∧ 1 ∈ unsubscribed (events (UpdateSubscriptions "c1" "n1" subscribers false st)).
Proof.
  intros st subscribers.
  assert (subscribers ≠ []) as Hne by discriminate.
  split; [exact Hne|].
  apply (UpdateSubscriptions_unsubscribes_stale "c1" "n1" subscribers 1 st Hne).
  exists "u1". split; [vm_compute; reflexivity|].
  intros [[=]|Hin%elem_of_nil]%elem_of_cons. exact Hin.
Defined.

Lemma UpdateSubscriptions_converges_witness :
  let st := mkState healthy (supervisor_with registry_u1) in
  let subscribers := [subscriber "u2" "http://s2/"] in
  let r := UpdateSubscriptions "c1" "n1" subscribers false st in
  subscribers ≠ []
  ∧ (value r).1 = ∅
  ∧ unsubscribe_failures (events r) = []
  ∧ is_Some (handle_at c1_n1 "u2" (sup (after r)))
  ∧ ¬ is_Some (handle_at c1_n1 "u1" (sup (after r))).
Proof.
  intros st subscribers r.
  assert (subscribers ≠ []) as Hne by discriminate.
  assert ((value r).1 = ∅) as Hempty by (vm_compute; reflexivity).
  assert (unsubscribe_failures (events r) = []) as Hnf by (vm_compute; reflexivity).
  pose proof (UpdateSubscriptions_converges "c1" "n1" subscribers st Hne Hempty Hnf)
    as Hconv.
  split_and!; [exact Hne|exact Hempty|exact Hnf| |].
  - apply Hconv. left.
  - intros Hu1%Hconv. apply elem_of_cons in Hu1 as [[=]|Hu1%elem_of_nil]. exact Hu1.
Defined.

Lemma UpdateSubscriptions_disconnected_witness :
  let st := mkState healthy (set_natssConn None false (supervisor_with ∅)) in
  let subscribers := [subscriber "u1" "http://s1/"] in
  let r := UpdateSubscriptions "c1" "n1" subscribers false st in
  natssConn (sup st) = None
  ∧ subscribers ≠ []
  ∧ (value r).1 !! subscriber "u1" "http://s1/" = Some noConnection
  ∧ sup (after r) = sup st.
Proof.
  intros st subscribers r.
  assert (subscribers ≠ []) as Hne by discriminate.
  destruct (UpdateSubscriptions_disconnected "c1" "n1" subscribers st eq_refl Hne)
    as (_ & Hall & _ & Hnone).
  split_and!; [reflexivity|exact Hne| |].
  - apply Hall; [left|reflexivity].
  - apply Hnone. reflexivity.
Defined.

Lemma unsubscribe_twice_witness :
  let st := mkState healthy (supervisor_with registry_u1) in
  let r := unsubscribe c1_n1 "u1" st in
  is_Some (handle_at c1_n1 "u1" (sup st))
  ∧ value r = None
  ∧ unsubscribe c1_n1 "u1" (after r) = (None, after r, []).
Proof.
  intros st r.
  assert (is_Some (handle_at c1_n1 "u1" (sup st))) as Hh by (by exists 1).
  assert (value r = None) as Hok by reflexivity.
  split_and!; [exact Hh|exact Hok|].
  exact (unsubscribe_twice c1_n1 "u1" st Hh Hok).
Defined.
